(** * Grove: technical-elective catalog tools

    A shallow embedding of [tech_elect_map.py] (record segmenter,
    prerequisite extractor, academic-level classifier, eligibility engine)
    of the two graph builders and the statistics of [course_api.py], and of
    the loader of completed courses, the keyword search and the export rows
    of [tech_elect_cli.py].

    Python strings are modelled as lists of characters.  The catalog text is
    ASCII: the character predicates below follow Python's [str] methods and
    the [re] module on the code points 0..127 ([str.isspace] and [\s] hold
    for 9..13, 28..31 and 32); code points above 127 are outside the model. *)

From Stdlib Require Import Ascii String ZArith Lia.
From stdpp Require Import base list strings gmap sets.

Abbreviation str := (list ascii).

(** A Python string literal. *)
Definition py (s : string) : str := Stdlib.Strings.String.list_ascii_of_string s.

(** ** Characters *)

Definition isspace (c : ascii) : bool :=
  let n := nat_of_ascii c in
  (9 <=? n) && (n <=? 13) || (28 <=? n) && (n <=? 32).

Definition isupper (c : ascii) : bool :=
  let n := nat_of_ascii c in (65 <=? n) && (n <=? 90).

Definition islower (c : ascii) : bool :=
  let n := nat_of_ascii c in (97 <=? n) && (n <=? 122).

Definition isdigit (c : ascii) : bool :=
  let n := nat_of_ascii c in (48 <=? n) && (n <=? 57).

Definition toupper (c : ascii) : ascii :=
  if islower c then ascii_of_nat (nat_of_ascii c - 32) else c.

Definition tolower (c : ascii) : ascii :=
  if isupper c then ascii_of_nat (nat_of_ascii c + 32) else c.

(** ** The [str] methods the program uses *)

(** [s.upper()] and [s.lower()]. *)
Definition upper (s : str) : str := toupper <$> s.
Definition lower (s : str) : str := tolower <$> s.

(** [s.strip()]: leading and trailing whitespace removed. *)
Fixpoint lstrip (s : str) : str :=
  match s with
  | c :: s' => if isspace c then lstrip s' else s
  | [] => []
  end.

Definition rstrip (s : str) : str := rev (lstrip (rev s)).

Definition strip (s : str) : str := rstrip (lstrip s).

(** [s.startswith(p)]. *)
Fixpoint startswith (p s : str) : bool :=
  match p, s with
  | [], _ => true
  | a :: p', b :: s' => Ascii.eqb a b && startswith p' s'
  | _ :: _, [] => false
  end.

(** [sub in s], the substring test. *)
Fixpoint contains (sub s : str) : bool :=
  startswith sub s ||
  match s with
  | [] => false
  | _ :: s' => contains sub s'
  end.

(** [s.split(sep)] for a non-empty separator: cut at each occurrence of
    [sep], scanning from the left, occurrences not overlapping. *)
Fixpoint split_aux (fuel : nat) (sep cur s : str) : list str :=
  match fuel with
  | 0 => [rev cur]
  | S fuel' =>
      match s with
      | [] => [rev cur]
      | c :: s' =>
          if startswith sep s
          then rev cur :: split_aux fuel' sep [] (drop (length sep) s)
          else split_aux fuel' sep (c :: cur) s'
      end
  end.

Definition split (sep s : str) : list str := split_aux (S (length s)) sep [] s.

(** [int(s)] on a string of decimal digits. *)
Definition digit_val (c : ascii) : Z := Z.of_nat (nat_of_ascii c) - 48.

Definition int (s : str) : Z := foldl (λ acc c, acc * 10 + digit_val c)%Z 0%Z s.

(** ** Regular expressions

    The fragment of Python's [re] the program uses, with [re]'s backtracking
    semantics: alternatives are tried left to right, repetition is greedy and
    gives characters back one iteration at a time.  The patterns of the
    program read back one capture group only, [group(1)]. *)

Inductive regex : Type :=
  | Eps : regex
  | Chr : (ascii → bool) → regex      (* one character of a class *)
  | Cat : regex → regex → regex
  | Alt : regex → regex → regex       (* r1|r2 *)
  | Star : regex → regex              (* r*, greedy *)
  | Grp : regex → regex               (* ( r ), read back as group(1) *)
  | Eos : regex.                      (* $ *)

Section exec.
Context {T : Type}.

(** A continuation receives the remaining input and the capture. *)
Definition cont : Type := str → option str → option T.

Definition orelse (a : option T) (b : option T) : option T :=
  match a with
  | Some x => Some x
  | None => b
  end.

(** Greedy iteration of [body], at most [n] times; an iteration that
    consumes nothing is not repeated. *)
Fixpoint star_loop (body : str → option str → cont → option T) (k : cont)
    (n : nat) (s : str) (g : option str) : option T :=
  match n with
  | 0 => k s g
  | S n' =>
      orelse
        (body s g (λ s' g',
           if length s' <? length s then star_loop body k n' s' g' else None))
        (k s g)
  end.

Fixpoint exec (r : regex) (s : str) (g : option str) (k : cont) : option T :=
  match r with
  | Eps => k s g
  | Chr p =>
      match s with
      | c :: s' => if p c then k s' g else None
      | [] => None
      end
  | Cat r1 r2 => exec r1 s g (λ s' g', exec r2 s' g' k)
  | Alt r1 r2 => orelse (exec r1 s g k) (exec r2 s g k)
  | Star r1 => star_loop (exec r1) k (length s) s g
  | Grp r1 => exec r1 s g (λ s' _, k s' (Some (take (length s - length s') s)))
  | Eos =>
      match s with
      | [] => k s g
      | [c] => if Ascii.eqb c "010" then k s g else None
      | _ => None
      end
  end.
End exec.

(** A match object: the text matched, [group(1)] and the input that follows
    the match. *)
Record match_obj : Type := MatchObj {
  m_text : str;
  m_group1 : option str;
  m_rest : str
}.

(** [m.group(1)]; a group that took no part in the match reads as empty. *)
Definition group1 (m : match_obj) : str := default [] (m_group1 m).

(** [re.match(r, s)]: a match of [r] at the start of [s].  The [^] that
    opens two of the program's patterns is implied by [re.match]. *)
Definition re_match (r : regex) (s : str) : option match_obj :=
  exec r s None
    (λ s' g, Some (MatchObj (take (length s - length s') s) g s')).

(** [re.search(r, s)]: the match at the leftmost position that has one. *)
Fixpoint re_search (r : regex) (s : str) : option match_obj :=
  match re_match r s with
  | Some m => Some m
  | None =>
      match s with
      | [] => None
      | _ :: s' => re_search r s'
      end
  end.

(** [re.findall(r, s)] for a pattern without groups: the matched texts,
    scanning from the left, each scan resuming where the last match ended. *)
Fixpoint findall_aux (fuel : nat) (r : regex) (s : str) : list str :=
  match fuel with
  | 0 => []
  | S fuel' =>
      match re_match r s with
      | Some m =>
          if length (m_rest m) <? length s
          then m_text m :: findall_aux fuel' r (m_rest m)
          else m_text m ::
               match s with
               | [] => []
               | _ :: s' => findall_aux fuel' r s'
               end
      | None =>
          match s with
          | [] => []
          | _ :: s' => findall_aux fuel' r s'
          end
      end
  end.

Definition re_findall (r : regex) (s : str) : list str :=
  findall_aux (S (length s)) r s.

(** [re.sub(r, repl, s)] for a pattern that matches no empty string and a
    replacement without group references. *)
Fixpoint sub_aux (fuel : nat) (r : regex) (repl s : str) : str :=
  match fuel with
  | 0 => s
  | S fuel' =>
      match s with
      | [] => []
      | c :: s' =>
          match re_match r s with
          | Some m =>
              if length (m_rest m) <? length s
              then repl ++ sub_aux fuel' r repl (m_rest m)
              else c :: sub_aux fuel' r repl s'
          | None => c :: sub_aux fuel' r repl s'
          end
      end
  end.

Definition re_sub (r : regex) (repl s : str) : str :=
  sub_aux (S (length s)) r repl s.

(** Pattern syntax. *)
Definition lit (s : str) : regex :=
  foldr (λ c r, Cat (Chr (Ascii.eqb c)) r) Eps s.

(** A literal under [re.IGNORECASE]. *)
Definition lit_i (s : str) : regex :=
  foldr (λ c r, Cat (Chr (λ x, Ascii.eqb (tolower x) (tolower c))) r) Eps s.

Fixpoint Rep (n : nat) (r : regex) : regex :=
  match n with
  | 0 => Eps
  | S n' => Cat r (Rep n' r)
  end.

Definition Plus (r : regex) : regex := Cat r (Star r).
Definition Opt (r : regex) : regex := Alt r Eps.

Definition ws : regex := Chr isspace.                               (* \s *)
Definition dgt : regex := Chr isdigit.                              (* \d *)
Definition AZ : regex := Chr isupper.                               (* [A-Z] *)
Definition not_period (c : ascii) : bool := negb (Ascii.eqb c ".").
Definition notdot : regex := Chr not_period.                        (* [^.] *)

(** ** tech_elect_map.py *)

(** A course dictionary with its three keys. *)
Record course : Type := Course {
  course_code : str;
  full_description : str;
  majors : str
}.

(** Python truthiness of a string. *)
Definition truthy (s : str) : bool :=
  match s with
  | [] => false
  | _ :: _ => true
  end.

Definition matched (m : option match_obj) : bool :=
  match m with
  | Some _ => true
  | None => false
  end.

(** [(EE|CpE|EE2|CpE1|EE3)] *)
Definition tag_re : regex :=
  Alt (lit (py "EE")) (Alt (lit (py "CpE")) (Alt (lit (py "EE2"))
    (Alt (lit (py "CpE1")) (lit (py "EE3"))))).

(** [^(EE|CpE|EE2|CpE1|EE3)(,\s*(EE|CpE|EE2|CpE1|EE3))*\s*$] *)
Definition majors_re : regex :=
  Cat tag_re
    (Cat (Star (Cat (lit (py ",")) (Cat (Star ws) tag_re)))
       (Cat (Star ws) Eos)).

(** [^([A-Z]{3}\s+\d{4}[A-Z]?)] *)
Definition course_line_re : regex :=
  Grp (Cat (Rep 3 AZ) (Cat (Plus ws) (Cat (Rep 4 dgt) (Opt AZ)))).

(** The variables of the loop of [parse_courses]; the empty dictionary
    [{}] that [current_course] starts from is [None]. *)
Record parser : Type := Parser {
  courses : list course;
  current_course : option course;
  current_majors : str
}.

(** Empty lines and page headers. *)
Definition skipped (line : str) : bool :=
  negb (truthy line) || contains (py "Page") line
  || contains (py "Dept. of") line || contains (py "Last Updated") line.

(** [if current_course and current_majors:] set the majors and append. *)
Definition commit (st : parser) : list course :=
  match current_course st with
  | Some c =>
      if truthy (current_majors st)
      then courses st ++ [Course (course_code c) (full_description c) (current_majors st)]
      else courses st
  | None => courses st
  end.

(** One iteration of the loop over the lines. *)
Definition parse_line (st : parser) (raw : str) : parser :=
  let line := strip raw in
  if skipped line then st
  else if matched (re_match majors_re line)
  then Parser (courses st) (current_course st) line
  else
    match re_match course_line_re line with
    | Some course_match =>
        Parser (commit st)
          (Some (Course (group1 course_match) line (current_majors st)))
          (current_majors st)
    | None =>
        match current_course st with
        | Some c =>
            Parser (courses st)
              (Some (Course (course_code c)
                       (full_description c ++ py " " ++ line) (majors c)))
              (current_majors st)
        | None => st
        end
    end.

Definition parse_lines (lines : list str) : list course :=
  commit (foldl parse_line (Parser [] None []) lines).

Definition parse_courses (text : str) : list course :=
  parse_lines (split (py (String "010" EmptyString)) text).

(** [if major in course['majors']] is the substring test on the string. *)
Definition search_courses_by_major (cs : list course) (major : str) : list course :=
  filter (λ c, contains major (majors c)) cs.

(** [course['majors'].split(', ')], the list of majors every consumer of a
    record shows and counts. *)
Definition majors_list (c : course) : list str := split (py ", ") (majors c).

Definition header_re (header : str) : regex :=
  Cat (lit_i header) (Cat (Star ws) (Grp (Plus notdot))).

(** [PR:\s*([^.]+)], [Prerequisite\(s\):\s*([^.]+)],
    [Prerequisites:\s*([^.]+)], searched with [re.IGNORECASE]. *)
Definition pr_headers : list str :=
  [py "PR:"; py "Prerequisite(s):"; py "Prerequisites:"].

Definition pr_patterns : list regex := header_re <$> pr_headers.

(** [[A-Z]{3}\s*\d{4}[A-Z]?] *)
Definition code_re : regex :=
  Cat (Rep 3 AZ) (Cat (Star ws) (Cat (Rep 4 dgt) (Opt AZ))).

(** The loop over the patterns: the first one found is used, then [break]. *)
Fixpoint first_clause (patterns : list regex) (description : str) : option str :=
  match patterns with
  | [] => None
  | pattern :: patterns' =>
      match re_search pattern description with
      | Some m => Some (strip (group1 m))
      | None => first_clause patterns' description
      end
  end.

Definition parse_prerequisites (description : str) : list str :=
  match first_clause pr_patterns description with
  | Some prereq_text => re_findall code_re prereq_text
  | None => []
  end.

(** [re.sub(r'\s+', ' ', s.strip())] *)
Definition normalized (s : str) : str := re_sub (Plus ws) (py " ") (strip s).

(** The inner loop over the completed courses, with its [break]. *)
Fixpoint found (normalized_prereq : str) (completed_courses : list str) : bool :=
  match completed_courses with
  | [] => false
  | completed :: rest =>
      if bool_decide (upper normalized_prereq = upper (normalized completed))
      then true
      else found normalized_prereq rest
  end.

(** The outer loop over the prerequisites. *)
Fixpoint missing_prereqs_of (course_prereqs completed_courses : list str) : list str :=
  match course_prereqs with
  | [] => []
  | prereq :: rest =>
      if found (normalized prereq) completed_courses
      then missing_prereqs_of rest completed_courses
      else prereq :: missing_prereqs_of rest completed_courses
  end.

Definition check_prerequisites_met (course_prereqs completed_courses : list str)
    : bool * list str :=
  match course_prereqs with
  | [] => (true, [])
  | _ :: _ =>
      let missing_prereqs := missing_prereqs_of course_prereqs completed_courses in
      (bool_decide (length missing_prereqs = 0), missing_prereqs)
  end.

(** [(\d{4})] *)
Definition number_re : regex := Grp (Rep 4 dgt).

Definition grad_indicators : list str :=
  [py "graduate standing"; py "grad standing"; py "admission to mat degree";
   py "graduate student"; py "pr: graduate"; py "prerequisite: graduate"].

(** The number [re.search(r'(\d{4})', code)] finds, if any. *)
Definition course_number (code : str) : option Z :=
  match re_search number_re code with
  | Some number_match => Some (int (group1 number_match))
  | None => None
  end.

Definition is_graduate_course (c : course) : bool :=
  if match course_number (course_code c) with
     | Some n => bool_decide (5000 ≤ n)%Z
     | None => false
     end
  then true
  else existsb (λ indicator, contains indicator (lower (full_description c)))
         grad_indicators.

Definition filter_by_academic_level (cs : list course) (academic_level : str)
    : list course :=
  if bool_decide (lower academic_level = py "graduate") then cs
  else if bool_decide (lower academic_level = py "undergraduate")
  then filter (λ c, negb (is_graduate_course c)) cs
  else cs.

(** An entry of the eligibility report: the course with four more keys. *)
Record course_info : Type := CourseInfo {
  info_course : course;
  prerequisites : list str;
  prereqs_met : bool;
  missing_prereqs : list str;
  is_graduate : bool
}.

Definition eligibility_entry (completed_courses : list str) (c : course) : course_info :=
  let prereqs := parse_prerequisites (full_description c) in
  let '(met, missing) := check_prerequisites_met prereqs completed_courses in
  CourseInfo c prereqs met missing (is_graduate_course c).

(** [major] is [None] when no major is given; [if major and major not in
    course['majors']: continue]. *)
Definition major_passes (major : option str) (c : course) : bool :=
  match major with
  | Some m => negb (truthy m) || contains m (majors c)
  | None => true
  end.

Definition get_eligible_courses (cs : list course) (completed_courses : list str)
    (major : option str) (academic_level : str) : list course_info :=
  eligibility_entry completed_courses <$>
    filter (λ c, major_passes major c)
      (filter_by_academic_level cs academic_level).

(** ** course_api.py

    The graph builders, as functions of the course list that
    [load_course_data()] returns. *)

(** A node dictionary: keys [id], [label], [title], [majors],
    [prerequisites], [is_graduate], [level], [group]. *)
Record node : Type := Node {
  node_id : str;
  node_label : str;
  node_title : str;
  node_majors : list str;
  node_prerequisites : list str;
  node_is_graduate : bool;
  node_level : Z;
  node_group : str
}.

(** An edge dictionary: keys [from], [to], [arrows]. *)
Record edge : Type := Edge {
  edge_from : str;
  edge_to : str;
  edge_arrows : str
}.

Record graph : Type := Graph {
  nodes : list node;
  edges : list edge
}.

(** [int(number_match.group(1)) if number_match else 4000] *)
Definition level_of (code : str) : Z := default 4000%Z (course_number code).

(** The node of a course of the list being drawn. *)
Definition course_node (c : course) : node :=
  let is_grad := is_graduate_course c in
  Node (course_code c) (course_code c)
    (take 200 (full_description c) ++ py "...")
    (majors_list c)
    (parse_prerequisites (full_description c))
    is_grad
    (level_of (course_code c))
    (if is_grad then py "graduate" else py "undergraduate").

(** The node of a prerequisite from outside the major. *)
Definition prereq_node (prereq : str) (prereq_course : course) : node :=
  Node prereq prereq
    (take 200 (full_description prereq_course) ++ py "...")
    (majors_list prereq_course)
    (parse_prerequisites (full_description prereq_course))
    (is_graduate_course prereq_course)
    (level_of prereq)
    (py "prerequisite").

Definition codes_of (cs : list course) : gset str :=
  list_to_set (course_code <$> cs).

(** The edges [create_course_graph] adds for one course. *)
Definition course_edges (course_codes : gset str) (c : course) : list edge :=
  (λ prereq, Edge prereq (course_code c) (py "to")) <$>
    filter (λ prereq, prereq ∈ course_codes)
      (parse_prerequisites (full_description c)).

Definition create_course_graph (cs : list course) : graph :=
  Graph (course_node <$> cs) (cs ≫= course_edges (codes_of cs)).

(** The variables of the edge loop of [get_course_graph_by_major]. *)
Record builder : Type := Builder {
  b_nodes : list node;
  b_edges : list edge;
  filtered_codes : gset str
}.

(** The body of the loop over the prerequisites of [c]. *)
Definition add_prereq (all_courses : list course) (all_codes : gset str)
    (c : course) (st : builder) (prereq : str) : builder :=
  if bool_decide (prereq ∈ all_codes) then
    let edges' := b_edges st ++ [Edge prereq (course_code c) (py "to")] in
    if bool_decide (prereq ∉ filtered_codes st) then
      match List.find (λ c', bool_decide (course_code c' = prereq)) all_courses with
      | Some prereq_course =>
          Builder (b_nodes st ++ [prereq_node prereq prereq_course]) edges'
            ({[prereq]} ∪ filtered_codes st)
      | None => Builder (b_nodes st) edges' (filtered_codes st)
      end
    else Builder (b_nodes st) edges' (filtered_codes st)
  else st.

Definition add_course (all_courses : list course) (all_codes : gset str)
    (st : builder) (c : course) : builder :=
  foldl (add_prereq all_courses all_codes c) st
    (parse_prerequisites (full_description c)).

Definition get_course_graph_by_major (cs : list course) (major : str) : graph :=
  let filtered_courses := search_courses_by_major cs major in
  let st :=
    foldl (add_course cs (codes_of cs))
      (Builder (course_node <$> filtered_courses) [] (codes_of filtered_courses))
      filtered_courses in
  Graph (b_nodes st) (b_edges st).

(** ** Vocabulary of the statements about [parse_courses] *)

Definition split_lines (text : str) : list str :=
  split (py (String "010" EmptyString)) text.

(** The loop of [parse_courses], from the state [st]. *)
Definition run (st : parser) (lines : list str) : parser := foldl parse_line st lines.

(** How the loop of [parse_courses] treats a raw line: the tests are those of
    [parse_line], in its order. *)
Definition is_marker (raw : str) : bool :=
  negb (skipped (strip raw)) && matched (re_match majors_re (strip raw)).

Definition is_course_line (raw : str) : bool :=
  negb (skipped (strip raw)) && negb (matched (re_match majors_re (strip raw)))
  && matched (re_match course_line_re (strip raw)).

Definition is_text_line (raw : str) : bool :=
  negb (skipped (strip raw)) && negb (matched (re_match majors_re (strip raw)))
  && negb (matched (re_match course_line_re (strip raw))).

(** The code a course-code line opens a record with. *)
Definition code_of_line (raw : str) : str :=
  match re_match course_line_re (strip raw) with
  | Some m => group1 m
  | None => []
  end.

(** The major marker in effect after [lines], [cm] being the one before. *)
Definition majors_after (cm : str) (lines : list str) : str :=
  foldl (λ cm raw, if is_marker raw then strip raw else cm) cm lines.

(** The description of an open record after the lines [lines], none of which
    opens a course: the text lines are appended, space-joined. *)
Definition description_after (desc : str) (lines : list str) : str :=
  foldl (λ d raw, if is_text_line raw then d ++ py " " ++ strip raw else d)
    desc lines.

(** The record of the block opened by [cl] and continued by [body], as it is
    committed when the lines [before ++ cl :: body] have been read: none when
    no marker is in effect then. *)
Definition block_record (before : list str) (cl : str) (body : list str)
    : list course :=
  let cm := majors_after [] (before ++ cl :: body) in
  if truthy cm
  then [Course (code_of_line cl) (description_after (strip cl) body) cm]
  else [].

(** A block is closed by the next course-code line or by the end of input. *)
Definition closes (rest : list str) : Prop :=
  match rest with
  | [] => True
  | raw :: _ => is_course_line raw = true
  end.

(** A majors value the marker grammar accepts. *)
Definition valid_majors (m : str) : Prop :=
  m ≠ [] ∧ matched (re_match majors_re m) = true.

Definition major_tags : list str :=
  [py "EE"; py "CpE"; py "EE2"; py "CpE1"; py "EE3"].

(** The invariant of the loop of [parse_courses]. *)
Definition segment_inv (st : parser) : Prop :=
  Forall (λ c, valid_majors (majors c)) (courses st) ∧
  (current_majors st = [] ∨ valid_majors (current_majors st)).

(** Sample catalog texts. *)
Definition catalog_sample : str :=
  py "Dept. of ECE
EE, CpE
EEL 4750 Digital Signal Processing.
PR: EEL 3123C.
Page 2
EEL 5513 DSP Applications. PR: EEL 4750.".

Definition sample_course : course :=
  Course (py "EEL 4750")
    (py "EEL 4750 Digital Signal Processing. PR: EEL 3123C.") (py "EE, CpE").

(** A course block ahead of the first marker, and a marker inside a block. *)
Definition orphan_block_text : str :=
  py "EEL 4750 Signals
EE
EEL 4751 Systems".

Definition remarked_block_text : str :=
  py "EE
EEL 4750 Signals
CpE
EEL 4751 Systems".

(** A catalog with one course, listed under [EE2]. *)
Definition ee2_catalog_text : str :=
  py "EE2
EEL 4750 Signals".

Definition ee2_course : course :=
  Course (py "EEL 4750") (py "EEL 4750 Signals") (py "EE2").

(** An undergraduate course. *)
Definition organization_course : course :=
  Course (py "EEL 3801C")
    (py "EEL 3801C Computer Organization. PR: EEE 3342C.") (py "EE, CpE").

(** ** Vocabulary of the statements about matching and eligibility *)

(** The longest prefix of characters of a class, and what follows it. *)
Fixpoint take_class (p : ascii → bool) (s : str) : str :=
  match s with
  | c :: s' => if p c then c :: take_class p s' else []
  | [] => []
  end.

Fixpoint drop_class (p : ascii → bool) (s : str) : str :=
  match s with
  | c :: s' => if p c then drop_class p s' else s
  | [] => []
  end.

(** What [Star (Chr p)] followed by [k] computes: [k] is tried after the
    longest run of [p] first, then after each shorter one. *)
Fixpoint greedy {T : Type} (p : ascii → bool) (k : @cont T) (s : str)
    (g : option str) : option T :=
  match s with
  | c :: s' => if p c then orelse (greedy p k s' g) (k s g) else k s g
  | [] => k [] g
  end.

(** The normalization in the spec's words: every run of whitespace is
    collapsed to a single space.  [in_run] tells that the character before
    was whitespace. *)
Fixpoint collapse_from (in_run : bool) (s : str) : str :=
  match s with
  | [] => []
  | c :: s' =>
      if isspace c
      then if in_run then collapse_from true s'
           else " "%char :: collapse_from true s'
      else c :: collapse_from false s'
  end.

Definition collapse_whitespace (s : str) : str := collapse_from false s.

(** The form under which [check_prerequisites_met] compares two codes. *)
Definition normal_form (s : str) : str := upper (normalized s).

(** A prerequisite is met by a list of completed courses. *)
Definition met_by (completed_courses : list str) (prereq : str) : Prop :=
  Exists (λ completed, normal_form completed = normal_form prereq) completed_courses.

(** A string written with whitespace between two of its visible parts, as
    [EEL 4750] is. *)
Definition has_inner_space (s : str) : Prop :=
  ∃ a w b, s = a ++ w :: b ∧ isspace w = true ∧
    Exists (λ x, isspace x = false) a ∧ Exists (λ x, isspace x = false) b.

#[global] Instance met_by_dec completed_courses prereq :
  Decision (met_by completed_courses prereq).
Proof. unfold met_by. apply _. Defined.

(** Sample courses and completed lists. *)
Definition dsp_course : course :=
  Course (py "EEL 4750")
    (py "EEL 4750 Digital Signal Processing. PR: EEL 3801C and EEL 9999.")
    (py "EE, CpE").

Definition unspaced_course : course :=
  Course (py "EEL 5513") (py "EEL 5513 DSP Applications. PR: EEL4750.") (py "EE").

(** ** Vocabulary of the statements about [parse_prerequisites] *)

(** [s] starts with [p], letter case set aside. *)
Fixpoint startswith_ci (p s : str) : bool :=
  match p, s with
  | [], _ => true
  | a :: p', b :: s' => Ascii.eqb (tolower b) (tolower a) && startswith_ci p' s'
  | _ :: _, [] => false
  end.

(** [s] starts with the header [h], and a character other than a period
    follows it. *)
Definition header_here (h s : str) : bool :=
  startswith_ci h s &&
  match drop (length h) s with
  | c :: _ => not_period c
  | [] => false
  end.

(** The clause in the spec's words: the text from the leftmost occurrence
    of the header [h] up to the next period, stripped. *)
Fixpoint clause_after (h d : str) : option str :=
  if header_here h d
  then Some (strip (take_class not_period (drop (length h) d)))
  else
    match d with
    | [] => None
    | _ :: d' => clause_after h d'
    end.

(** The course-code grammar [[A-Z]{3}\s*\d{4}[A-Z]?], in words: three
    capitals, whitespace or none, four digits, at most one capital. *)
Definition is_code (m : str) : Prop :=
  ∃ l w d sfx,
    m = l ++ w ++ d ++ sfx ∧
    length l = 3 ∧ Forall (λ c, isupper c = true) l ∧
    Forall (λ c, isspace c = true) w ∧
    length d = 4 ∧ Forall (λ c, isdigit c = true) d ∧
    length sfx ≤ 1 ∧ Forall (λ c, isupper c = true) sfx.

(** A code starts the string [s]. *)
Definition code_starts (s : str) : Prop := ∃ m rest, s = m ++ rest ∧ is_code m.

(** The scan of [re.findall] in words: from the left, where a code starts
    the longest one is taken and the scan goes on after it; elsewhere the
    scan moves on by one character. *)
Inductive code_scan : str → list str → Prop :=
  | scan_end : code_scan [] []
  | scan_skip c s ms :
      ¬ code_starts (c :: s) → code_scan s ms → code_scan (c :: s) ms
  | scan_take m s ms :
      is_code m →
      (∀ m' rest', m ++ s = m' ++ rest' → is_code m' → length m' ≤ length m) →
      code_scan s ms → code_scan (m ++ s) (m :: ms).

(** The example of the spec. *)
Definition two_clauses_text : str :=
  py "...PR: EEE 3307C, EEL 4750. Other text PR: IGNORED 9999.".

(** ** Vocabulary of the statements about the graph builders *)

(** An edge as the pair [(from, to)]. *)
Definition edge_pair (e : edge) : str * str := (edge_from e, edge_to e).

(** The prerequisites the edge loop of [get_course_graph_by_major] visits,
    in its order. *)
Definition visited_prereqs (filtered_courses : list course) : list str :=
  filtered_courses ≫= (λ c, parse_prerequisites (full_description c)).

(** The invariant of that loop, after the prerequisites [visited]: the
    nodes are those of the courses of the major followed by the nodes
    [extra] of outside prerequisites, one for each such prerequisite met
    so far. *)
Definition graph_inv (cs filtered_courses : list course) (visited : list str)
    (st : builder) : Prop :=
  ∃ extra : list node,
    b_nodes st = (course_node <$> filtered_courses) ++ extra ∧
    filtered_codes st = codes_of filtered_courses ∪ list_to_set (node_id <$> extra) ∧
    NoDup (node_id <$> extra) ∧
    (∀ n, n ∈ extra →
       node_group n = py "prerequisite" ∧ node_id n ∈ codes_of cs ∧
       node_id n ∉ codes_of filtered_courses) ∧
    (∀ p, p ∈ visited → p ∈ codes_of cs → p ∉ codes_of filtered_courses →
       p ∈ node_id <$> extra).

(** Catalogs with a code listed twice, and with a prerequisite named twice
    in one clause. *)
Definition twice_listed_catalog : list course :=
  [Course (py "EEL 1000") (py "EEL 1000 Circuits.") (py "EE");
   Course (py "EEL 1000") (py "EEL 1000 Circuits, evening section.") (py "EE")].

Definition twice_named_catalog : list course :=
  [Course (py "EEL 1000") (py "EEL 1000 Circuits.") (py "EE");
   Course (py "EEL 2000") (py "EEL 2000 Networks. PR: EEL 1000 or EEL 1000.") (py "EE")].

(** A catalog in which two courses of [CpE] depend on a course of [EE], and
    one of them on a course that is not in the catalog. *)
Definition shared_prereq_catalog : list course :=
  [Course (py "EEL 1000") (py "EEL 1000 Circuits.") (py "EE");
   Course (py "EEL 2000") (py "EEL 2000 Networks. PR: EEL 1000 and MAC 2311.") (py "CpE");
   Course (py "EEL 3000") (py "EEL 3000 Systems. PR: EEL 1000 and EEL 2000.") (py "CpE")].

(** ** More vocabulary: the matcher and the catalog *)

(** The characters a pattern can consume. *)
Fixpoint accepts (r : regex) (c : ascii) : bool :=
  match r with
  | Eps | Eos => false
  | Chr p => p c
  | Cat r1 r2 | Alt r1 r2 => accepts r1 c || accepts r2 c
  | Star r1 | Grp r1 => accepts r1 c
  end.

(** The codes of the records the loop of [parse_courses] holds: those
    committed and the open one. *)
Definition opened (st : parser) : list str :=
  (course_code <$> courses st) ++
  match current_course st with
  | Some c => [course_code c]
  | None => []
  end.

(** The invariant behind a property [P] of every record of a catalog. *)
Definition records_inv (P : course → Prop) (st : parser) : Prop :=
  Forall P (courses st) ∧ ∀ c, current_course st = Some c → P c.

(** A catalog text whose first line is a marker. *)
Definition marked_catalog_text : str :=
  py "EE, CpE
EEL 4750 Digital Signal Processing.
PR: EEL 3123C.
CpE
EEL 4768C Computer Architecture. PR: EEL 3801C.
Last Updated 2025
EEL 5513 DSP Applications.".

(** ** tech_elect_map.py: input_completed_courses

    The loop reads the user's answers one by one; [inputs] are the strings
    that the successive calls of [input()] return.  [None] stands for the
    [EOFError] of a call that finds the input exhausted; what the loop
    prints is left out. *)

(** [^[A-Z]{3}\s*\d{4}[A-Z]?$] *)
Definition valid_code_re : regex :=
  Cat (Rep 3 AZ) (Cat (Star ws) (Cat (Rep 4 dgt) (Cat (Opt AZ) Eos))).

Fixpoint input_completed_courses_from (completed : list str) (inputs : list str)
    : option (list str) :=
  match inputs with
  | [] => None
  | raw :: inputs' =>
      let course := strip raw in
      if bool_decide (lower course = py "done") then Some completed
      else if bool_decide (lower course = py "clear")
      then input_completed_courses_from [] inputs'
      else if bool_decide (course = [])
      then input_completed_courses_from completed inputs'
      else if matched (re_match valid_code_re (upper course)) then
        let normalized_course := re_sub (Plus ws) (py " ") (upper course) in
        if bool_decide (normalized_course ∉ completed)
        then input_completed_courses_from (completed ++ [normalized_course]) inputs'
        else input_completed_courses_from completed inputs'
      else input_completed_courses_from completed inputs'
  end.

Definition input_completed_courses (inputs : list str) : option (list str) :=
  input_completed_courses_from [] inputs.

(** ** tech_elect_cli.py and grove.py: load_completed_courses

    As a function of the content of the file; the exits on a missing or
    unreadable file are left out. *)

(** The body of the loop over the lines. *)
Definition load_line (completed : list str) (raw : str) : list str :=
  let line := strip raw in
  if negb (truthy line) || startswith (py "#") line then completed
  else if contains (py ",") line then
    let courses_in_line := (λ c, upper (strip c)) <$> split (py ",") line in
    completed ++ filter (λ c, truthy c) courses_in_line
  else if truthy (upper line) then completed ++ [upper line]
  else completed.

(** Remove duplicates while preserving order: the set [seen] and the list
    [unique_completed]. *)
Definition keep_unique (st : gset str * list str) (course : str)
    : gset str * list str :=
  if bool_decide (course ∉ st.1) then ({[course]} ∪ st.1, st.2 ++ [course]) else st.

Definition load_completed_courses (content : str) : list str :=
  let lines := split (py (String "010" EmptyString)) (strip content) in
  let completed := foldl load_line [] lines in
  (foldl keep_unique (∅, []) completed).2.

(** A string that [strip] leaves as it is. *)
Definition trimmed (s : str) : Prop := lstrip s = s ∧ lstrip (rev s) = rev s.

(** An answer that closes the loop of [input_completed_courses]. *)
Definition is_done (raw : str) : bool := bool_decide (lower (strip raw) = py "done").

(** The list after an answer that does not close the loop: the loop run on
    that answer and [done]. *)
Definition after_answer (completed : list str) (raw : str) : list str :=
  default completed (input_completed_courses_from completed [raw; py "done"]).

(** A file of completed courses. *)
Definition completed_file : str :=
  py "# my courses
eel 3801c, EEE 3342C ,
EEL 4750

eel 3801C
".

(** The entries of the file before duplicates are removed. *)
Definition file_entries (content : str) : list str :=
  foldl load_line [] (split (py (String "010" EmptyString)) (strip content)).

(** An empty line or a comment. *)
Definition is_comment (raw : str) : bool :=
  negb (truthy (strip raw)) || startswith (py "#") (strip raw).

(** ** tech_elect_cli.py: majors and keyword search *)

(** [validate_major]: [major in valid_majors]. *)
Definition validate_major (major : str) : bool :=
  bool_decide (major ∈ [py "EE"; py "CpE"; py "CS"; py "IT"; py "EE2"; py "CpE1"; py "EE3"]).

(** [search_courses]: a course is kept when the lowered query occurs in its
    lowered code, or else in its lowered description. *)
Definition search_courses (cs : list course) (query : str) : list course :=
  let query_lower := lower query in
  filter (λ c, contains query_lower (lower (course_code c)) = true ∨
               contains query_lower (lower (full_description c)) = true) cs.

(** The characters a marker line is made of. *)
Definition marker_char (c : ascii) : bool :=
  isspace c || bool_decide (c ∈ py "ECp123,").

(** ** Statistics: [get_statistics] of course_api.py, [show_statistics] of
    tech_elect_map.py *)

(** [major = major.strip(); major_counts[major] = major_counts.get(major, 0) + 1] *)
Definition count_major (major_counts : gmap str nat) (major : str) : gmap str nat :=
  let major := strip major in
  <[major := default 0 (major_counts !! major) + 1]> major_counts.

(** The body of the loop over the courses; the state is [major_counts],
    [grad_count] and [undergrad_count]. *)
Definition count_course (st : gmap str nat * nat * nat) (c : course)
    : gmap str nat * nat * nat :=
  let '(major_counts, grad_count, undergrad_count) := st in
  let '(grad_count, undergrad_count) :=
    if is_graduate_course c then (grad_count + 1, undergrad_count)
    else (grad_count, undergrad_count + 1) in
  (foldl count_major major_counts (majors_list c), grad_count, undergrad_count).

Record statistics : Type := Statistics {
  total_courses : nat;
  undergraduate_courses : nat;
  graduate_courses : nat;
  major_counts : gmap str nat
}.

Definition get_statistics (cs : list course) : statistics :=
  let '(major_counts, grad_count, undergrad_count) := foldl count_course (∅, 0, 0) cs in
  Statistics (length cs) undergrad_count grad_count major_counts.

(** The stripped majors of the courses of a list, one for each time a
    course names it. *)
Definition major_entries (cs : list course) : list str :=
  cs ≫= λ c, strip <$> majors_list c.

(** ** tech_elect_cli.py: the rows of [export_to_csv] *)

(** [sep.join(l)] *)
Definition join (sep : str) (l : list str) : str :=
  match l with
  | [] => []
  | x :: l' => x ++ (l' ≫= λ y, sep ++ y)
  end.

(** The status that the loop over the eligibility report stores for an
    entry. *)
Definition status_of (completed_courses : list str) (e : course_info) : str :=
  if bool_decide (course_code (info_course e) ∈ completed_courses) then py "Completed"
  else if prereqs_met e then py "Eligible"
  else py "Need Prerequisites".

(** [eligibility_info]: empty when [completed_courses] is empty or [None];
    [get_eligible_courses] is called with its default level. *)
Definition eligibility_info (cs : list course) (completed_courses : list str)
    : gmap str str :=
  match completed_courses with
  | [] => ∅
  | _ :: _ =>
      foldl (λ info e, <[course_code (info_course e) := status_of completed_courses e]> info)
        ∅ (get_eligible_courses cs completed_courses None (py "undergraduate"))
  end.

(** A row handed to the writer; [row_status] is [None] when the row has no
    [Status] key. *)
Record row : Type := Row {
  row_code : str;
  row_majors : str;
  row_level : str;
  row_prerequisites : str;
  row_description : str;
  row_status : option str
}.

Definition export_row (info : gmap str str) (completed_courses : list str) (c : course)
    : row :=
  let prereqs := parse_prerequisites (full_description c) in
  Row (course_code c) (majors c)
    (if is_graduate_course c then py "Graduate" else py "Undergraduate")
    (match prereqs with [] => py "None" | _ :: _ => join (py ", ") prereqs end)
    (full_description c)
    (match completed_courses with
     | [] => None
     | _ :: _ => Some (default (py "Unknown") (info !! course_code c))
     end).

(** The rows written, in order. *)
Definition export_to_csv (cs : list course) (completed_courses : list str) : list row :=
  export_row (eligibility_info cs completed_courses) completed_courses <$> cs.

Definition graduate_catalog_text : str :=
  py "EE
EEL 4750 Digital Signal Processing. PR: EEL 3123C.
EEL 5513 DSP Applications. PR: EEL 4750.".

(** ** Vocabulary of the statements about completed courses *)

(** The form that collapsing and uppercasing alone give: every run of
    whitespace becomes a single space, also at the two ends, and the letters
    are uppercased. *)
Definition collapsed_upper (s : str) : str := upper (collapse_whitespace s).

(** A course with one prerequisite. *)
Definition architecture_course : course :=
  Course (py "EEL 4768C") (py "EEL 4768C Computer Architecture. PR: EEL 3801C.")
    (py "CpE").

(** A list without its repetitions, each element kept where it occurs
    first. *)
Fixpoint first_occurrences (l : list str) : list str :=
  match l with
  | [] => []
  | x :: l' => x :: filter (λ y, y ≠ x) (first_occurrences l')
  end.

(** The entries that one line of a file of completed courses holds: none for
    an empty line or a comment; for a line with a comma, the pieces between
    the commas, trimmed and uppercased, the empty ones left out; else the
    trimmed line, uppercased. *)
Definition line_entries (raw : str) : list str :=
  let line := strip raw in
  if is_comment raw then []
  else if contains (py ",") line
  then filter (λ c, c ≠ []) ((λ c, upper (strip c)) <$> split (py ",") line)
  else [upper line].

(** A string of the code points 0..127. *)
Definition is_ascii (s : str) : Prop := Forall (λ c, nat_of_ascii c < 128) s.
(** * Proofs *)

(** ** Strings and the matcher *)

Lemma startswith_spec (p s : str) :
  startswith p s = true ↔ ∃ rest, s = p ++ rest.
Proof.
  revert s. induction p as [|a p IH]; intros s; simpl.
  - split; eauto.
  - destruct s as [|b s]; simpl.
    + split; [done | intros [rest H]; discriminate].
    + rewrite andb_true_iff, IH, Ascii.eqb_eq. split.
      * intros [-> [rest ->]]. eauto.
      * intros [rest H]. injection H as -> ->. eauto.
Qed.

Section matcher.
Context {T : Type}.
Implicit Types (k : @cont T) (s : str) (g : option str).

Lemma exec_lit t s g k :
  exec (lit t) s g k = if startswith t s then k (drop (length t) s) g else None.
Proof.
  revert s. induction t as [|a t IH]; intros s; simpl; [done|].
  destruct s as [|b s]; simpl; [done|].
  destruct (Ascii.eqb a b); simpl; [apply IH | done].
Qed.

Lemma exec_cat r1 r2 s g k :
  exec (Cat r1 r2) s g k = exec r1 s g (λ s' g', exec r2 s' g' k).
Proof. done. Qed.

Lemma exec_cat_chr p r c s g k :
  exec (Cat (Chr p) r) (c :: s) g k = if p c then exec r s g k else None.
Proof. done. Qed.

Lemma exec_cat_chr_nil p r g k : exec (Cat (Chr p) r) [] g k = None.
Proof. done. Qed.

Lemma exec_eps s g k : exec Eps s g k = k s g.
Proof. done. Qed.

Lemma exec_grp r s g k :
  exec (Grp r) s g k =
    exec r s g (λ s' _, k s' (Some (take (length s - length s') s))).
Proof. done. Qed.

Lemma orelse_Some (a b : option T) x :
  orelse a b = Some x → a = Some x ∨ (a = None ∧ b = Some x).
Proof. destruct a; simpl; intros; simplify_eq; auto. Qed.
End matcher.

(** ** The record segmenter *)

Lemma tag_re_prefix {T} (s : str) g (k : @cont T) x :
  exec tag_re s g k = Some x → ∃ tag rest, tag ∈ major_tags ∧ s = tag ++ rest.
Proof.
  unfold tag_re, major_tags; cbn [exec]. rewrite !exec_lit. intros H.
  repeat (apply orelse_Some in H as [H | [_ H]]);
    (destruct (startswith _ s) eqn:E; [|discriminate]);
    apply startswith_spec in E as [rest ->]; eexists _, rest;
    (split; [|reflexivity]); set_solver.
Qed.

Lemma majors_re_prefix (m : str) :
  matched (re_match majors_re m) = true →
  ∃ tag rest, tag ∈ major_tags ∧ m = tag ++ rest.
Proof.
  unfold re_match, majors_re. cbn [exec].
  destruct (exec tag_re m None _) eqn:E; [|done].
  intros _. eapply tag_re_prefix, E.
Qed.

Lemma parse_line_marker st raw :
  is_marker raw = true →
  parse_line st raw = Parser (courses st) (current_course st) (strip raw).
Proof.
  unfold is_marker, parse_line. rewrite andb_true_iff, negb_true_iff.
  by intros [-> ->].
Qed.

Lemma parse_line_course st raw :
  is_course_line raw = true →
  parse_line st raw =
    Parser (commit st) (Some (Course (code_of_line raw) (strip raw) (current_majors st)))
      (current_majors st).
Proof.
  unfold is_course_line, parse_line, code_of_line.
  rewrite !andb_true_iff, !negb_true_iff. intros [[-> ->] H].
  by destruct (re_match course_line_re _).
Qed.

Lemma parse_line_text st raw :
  is_text_line raw = true →
  parse_line st raw =
    match current_course st with
    | Some c =>
        Parser (courses st)
          (Some (Course (course_code c) (full_description c ++ py " " ++ strip raw)
                   (majors c)))
          (current_majors st)
    | None => st
    end.
Proof.
  unfold is_text_line, parse_line.
  rewrite !andb_true_iff, !negb_true_iff. intros [[-> ->] H].
  by destruct (re_match course_line_re _).
Qed.

Lemma parse_line_skipped st raw :
  is_marker raw = false → is_course_line raw = false → is_text_line raw = false →
  parse_line st raw = st.
Proof.
  unfold is_marker, is_course_line, is_text_line, parse_line.
  destruct (skipped _); [done|]. simpl.
  destruct (matched (re_match majors_re _)); [done|]. simpl.
  by destruct (matched (re_match course_line_re _)).
Qed.

(** A line is of at most one kind. *)
Lemma line_kinds raw :
  (is_marker raw = true → is_course_line raw = false ∧ is_text_line raw = false) ∧
  (is_course_line raw = true → is_marker raw = false ∧ is_text_line raw = false) ∧
  (is_text_line raw = true → is_marker raw = false ∧ is_course_line raw = false).
Proof.
  unfold is_marker, is_course_line, is_text_line.
  destruct (skipped _), (matched (re_match majors_re _)),
    (matched (re_match course_line_re _)); simpl; intuition congruence.
Qed.

Lemma current_majors_run st lines :
  current_majors (run st lines) = majors_after (current_majors st) lines.
Proof.
  revert st. induction lines as [|raw lines IH]; intros st; [done|].
  unfold run, majors_after in *. simpl. rewrite IH. f_equal.
  destruct (is_marker raw) eqn:Em.
  { by rewrite parse_line_marker. }
  destruct (is_course_line raw) eqn:Ec.
  { by rewrite parse_line_course. }
  destruct (is_text_line raw) eqn:Et.
  { rewrite parse_line_text by done. by destruct (current_course st). }
  by rewrite parse_line_skipped.
Qed.

(** Lines that open no course leave the committed records alone and extend
    the open record. *)
Lemma run_body done c cm body :
  Forall (λ raw, is_course_line raw = false) body →
  run (Parser done (Some c) cm) body =
    Parser done
      (Some (Course (course_code c) (description_after (full_description c) body)
               (majors c)))
      (majors_after cm body).
Proof.
  intros Hb. revert c cm. induction Hb as [|raw body Hraw _ IH]; intros c cm.
  { by destruct c. }
  unfold run, description_after, majors_after in *. simpl.
  destruct (is_marker raw) eqn:Em.
  { destruct (line_kinds raw) as [H _]. destruct (H Em) as [_ ->].
    rewrite parse_line_marker by done. simpl. apply IH. }
  destruct (is_text_line raw) eqn:Et.
  { rewrite parse_line_text by done. simpl. apply IH. }
  rewrite parse_line_skipped by done. apply IH.
Qed.

(** The list of committed records only grows. *)
Lemma commit_grows st : ∃ tail, commit st = courses st ++ tail.
Proof.
  unfold commit.
  destruct (current_course st); [destruct (truthy (current_majors st))|]; eauto;
    exists []; by rewrite app_nil_r.
Qed.

Lemma courses_run_grows st lines : ∃ tail, courses (run st lines) = courses st ++ tail.
Proof.
  revert st. induction lines as [|raw lines IH]; intros st.
  { exists []. by rewrite app_nil_r. }
  unfold run in *. simpl. destruct (IH (parse_line st raw)) as [tail ->].
  assert (∃ t, courses (parse_line st raw) = courses st ++ t) as [t ->].
  { destruct (is_marker raw) eqn:Em.
    { rewrite parse_line_marker by done. exists []. by rewrite app_nil_r. }
    destruct (is_course_line raw) eqn:Ec.
    { rewrite parse_line_course by done. apply commit_grows. }
    destruct (is_text_line raw) eqn:Et.
    { rewrite parse_line_text by done. exists [].
      destruct (current_course st); by rewrite app_nil_r. }
    rewrite parse_line_skipped by done. exists []. by rewrite app_nil_r. }
  exists (t ++ tail). by rewrite app_assoc.
Qed.

Lemma commit_run_grows st lines : ∃ tail, commit (run st lines) = courses st ++ tail.
Proof.
  destruct (commit_grows (run st lines)) as [t1 ->].
  destruct (courses_run_grows st lines) as [t2 ->].
  exists (t2 ++ t1). by rewrite app_assoc.
Qed.

Lemma run_app st l1 l2 : run st (l1 ++ l2) = run (run st l1) l2.
Proof. apply foldl_app. Qed.

(** The block lemma: a course-code line [cl], the lines [body] up to the
    next course-code line or the end, and what is committed for them. *)
Lemma parse_lines_block before cl body rest :
  is_course_line cl = true →
  Forall (λ raw, is_course_line raw = false) body →
  closes rest →
  ∃ tail,
    parse_lines (before ++ cl :: body ++ rest) =
      parse_lines before ++ block_record before cl body ++ tail.
Proof.
  intros Hcl Hbody Hrest. unfold parse_lines.
  fold (run (Parser [] None []) (before ++ cl :: body ++ rest)).
  fold (run (Parser [] None []) before).
  rewrite run_app. set (st := run (Parser [] None []) before).
  change (cl :: body ++ rest) with ([cl] ++ body ++ rest).
  rewrite !run_app. unfold run at 3. simpl foldl.
  rewrite parse_line_course by done. rewrite run_body by done. simpl.
  assert (majors_after (current_majors st) body = majors_after [] (before ++ cl :: body))
    as Hcm.
  { unfold st. rewrite current_majors_run. unfold majors_after.
    rewrite foldl_app. simpl.
    destruct (line_kinds cl) as (_ & H & _). destruct (H Hcl) as [-> _]. done. }
  set (open := Parser _ _ _).
  assert (commit open = commit st ++ block_record before cl body) as Hopen.
  { unfold commit at 1, block_record. simpl. rewrite Hcm.
    destruct (truthy _); [done | by rewrite app_nil_r]. }
  destruct rest as [|cl2 rest]; simpl in Hrest.
  { exists []. simpl. by rewrite app_nil_r. }
  unfold run at 1. simpl foldl. rewrite parse_line_course by done.
  fold (run (Parser (commit open) (Some (Course (code_of_line cl2) (strip cl2) (current_majors open))) (current_majors open)) rest).
  destruct (commit_run_grows
    (Parser (commit open) (Some (Course (code_of_line cl2) (strip cl2) (current_majors open))) (current_majors open)) rest)
    as [tail ->].
  simpl. rewrite Hopen. exists tail. by rewrite app_assoc.
Qed.

Lemma marker_truthy raw : is_marker raw = true → valid_majors (strip raw).
Proof.
  unfold is_marker, skipped, valid_majors.
  rewrite andb_true_iff, negb_true_iff, !orb_false_iff, negb_false_iff.
  intros [[[[H _] _] _] ->]. split; [|done]. by destruct (strip raw).
Qed.

Lemma valid_majors_truthy m : valid_majors m → truthy m = true.
Proof. intros [H _]. by destruct m. Qed.

Lemma majors_after_app cm l1 l2 :
  majors_after cm (l1 ++ l2) = majors_after (majors_after cm l1) l2.
Proof. apply foldl_app. Qed.

Lemma majors_after_no_marker cm lines :
  Forall (λ raw, is_marker raw = false) lines → majors_after cm lines = cm.
Proof.
  intros H. revert cm. induction H as [|raw lines Hraw _ IH]; intros cm; [done|].
  unfold majors_after in *. simpl. rewrite Hraw. apply IH.
Qed.

(** After a marker [mk] and lines without markers, [mk] is in effect. *)
Lemma majors_after_last cm l1 mk l2 :
  is_marker mk = true → Forall (λ raw, is_marker raw = false) l2 →
  majors_after cm (l1 ++ mk :: l2) = strip mk.
Proof.
  intros Hmk Hl2. rewrite majors_after_app.
  change (mk :: l2) with ([mk] ++ l2). rewrite majors_after_app.
  rewrite majors_after_no_marker by done.
  unfold majors_after at 1. simpl. by rewrite Hmk.
Qed.

(** The lines split at their last marker, when they have one. *)
Lemma last_marker_split lines :
  Exists (λ raw, is_marker raw = true) lines →
  ∃ l1 mk l2, lines = l1 ++ mk :: l2 ∧ is_marker mk = true ∧
    Forall (λ raw, is_marker raw = false) l2.
Proof.
  induction lines as [|raw lines IH]; intros H; [by apply Exists_nil in H|].
  destruct (decide (Exists (λ raw, is_marker raw = true) lines)) as [Hl|Hl].
  - destruct (IH Hl) as (l1 & mk & l2 & -> & Hmk & Hl2).
    by exists (raw :: l1), mk, l2.
  - apply Exists_cons in H as [H|H]; [|done].
    exists [], raw, lines. split_and!; [done..|].
    apply Forall_forall. intros x Hx. apply not_true_is_false. intros Hm.
    apply Hl, Exists_exists. eauto.
Qed.

Lemma commit_valid st :
  segment_inv st → Forall (λ c, valid_majors (majors c)) (commit st).
Proof.
  intros [Hc Hm]. unfold commit. destruct (current_course st) as [c|]; [|done].
  destruct (truthy (current_majors st)) eqn:E; [|done].
  apply Forall_app. split; [done|]. apply Forall_singleton. simpl.
  destruct Hm as [Hm|Hm]; [by rewrite Hm in E | done].
Qed.

Lemma parse_line_inv st raw : segment_inv st → segment_inv (parse_line st raw).
Proof.
  intros Hinv. destruct (is_marker raw) eqn:Em.
  { rewrite parse_line_marker by done. destruct Hinv as [Hc _].
    split; simpl; [done|]. right. by apply marker_truthy. }
  destruct (is_course_line raw) eqn:Ec.
  { rewrite parse_line_course by done. split; simpl.
    - by apply commit_valid.
    - apply Hinv. }
  destruct (is_text_line raw) eqn:Et.
  { rewrite parse_line_text by done. destruct (current_course st); [|done].
    destruct Hinv as [Hc Hm]. by split. }
  by rewrite parse_line_skipped.
Qed.

Lemma run_inv st lines : segment_inv st → segment_inv (run st lines).
Proof.
  revert st. induction lines as [|raw lines IH]; intros st H; [done|].
  apply IH, parse_line_inv, H.
Qed.

(** Nothing is committed while no marker has been read. *)
Lemma run_no_marker st lines :
  Forall (λ raw, is_marker raw = false) lines →
  courses st = [] → current_majors st = [] →
  courses (run st lines) = [] ∧ current_majors (run st lines) = [].
Proof.
  intros H. revert st. induction H as [|raw lines Hraw _ IH]; intros st Hc Hm; [done|].
  apply IH.
  - destruct (is_course_line raw) eqn:Ec.
    { rewrite parse_line_course by done. unfold commit. simpl. rewrite Hm, Hc.
      by destruct (current_course st). }
    destruct (is_text_line raw) eqn:Et.
    { rewrite parse_line_text by done. by destruct (current_course st). }
    by rewrite parse_line_skipped.
  - pose proof (current_majors_run st [raw]) as H. unfold run in H. simpl in H.
    rewrite H. unfold majors_after. simpl. by rewrite Hraw.
Qed.

Lemma parse_lines_no_marker lines :
  Forall (λ raw, is_marker raw = false) lines → parse_lines lines = [].
Proof.
  intros H. unfold parse_lines. fold (run (Parser [] None []) lines).
  destruct (run_no_marker (Parser [] None []) lines H) as [Hc Hm]; [done..|].
  unfold commit. rewrite Hc, Hm. by destruct (current_course _).
Qed.

(** C8: every record of the catalog that [parse_courses] returns carries a
    non-empty majors value; it is a line the marker grammar accepted, so it
    begins with one of the five major tags. *)
Theorem parse_courses_majors_nonempty (text : str) (c : course) :
  c ∈ parse_courses text →
  majors c ≠ [] ∧ matched (re_match majors_re (majors c)) = true ∧
  ∃ tag rest, tag ∈ major_tags ∧ majors c = tag ++ rest.
Proof.
  intros Hc. unfold parse_courses, parse_lines in Hc.
  assert (segment_inv (run (Parser [] None []) (split (py (String "010" EmptyString)) text)))
    as Hinv.
  { apply run_inv. split; simpl; [constructor | by left]. }
  apply commit_valid in Hinv. rewrite Forall_forall in Hinv.
  destruct (Hinv c Hc) as [Hne Hm]. split_and!; [done..|].
  by apply majors_re_prefix.
Qed.

Lemma parse_courses_majors_nonempty_witness :
  sample_course ∈ parse_courses catalog_sample ∧
  (majors sample_course ≠ [] ∧
   matched (re_match majors_re (majors sample_course)) = true ∧
   ∃ tag rest, tag ∈ major_tags ∧ majors sample_course = tag ++ rest).
Proof.
  assert (sample_course ∈ parse_courses catalog_sample) as H.
  { vm_compute. left. }
  split; [exact H|].
  exact (parse_courses_majors_nonempty catalog_sample sample_course H).
Defined.

Lemma majors_after_block before cl body :
  is_course_line cl = true →
  majors_after [] (before ++ cl :: body) = majors_after (majors_after [] before) body.
Proof.
  intros Hcl. rewrite majors_after_app.
  change (cl :: body) with ([cl] ++ body). rewrite majors_after_app. f_equal.
  unfold majors_after at 1. simpl.
  destruct (line_kinds cl) as (_ & H & _). by destruct (H Hcl) as [-> _].
Qed.

Lemma majors_after_marked cm body :
  Exists (λ raw, is_marker raw = true) body → truthy (majors_after cm body) = true.
Proof.
  intros H. apply last_marker_split in H as (l1 & mk & l2 & -> & Hmk & Hl2).
  rewrite majors_after_last by done. by apply valid_majors_truthy, marker_truthy.
Qed.

(** C4, as the code has it: a course block whose course-code line comes
    before the first major marker is discarded when no marker is read before
    the block is closed (the catalog is then that of the text after the
    block); when a marker is read before the block is closed, the block is
    committed, with the last such marker as its majors. *)
Theorem block_before_first_marker (text : str) (before : list str) (cl : str)
    (body rest : list str) :
  split_lines text = before ++ cl :: body ++ rest →
  Forall (λ raw, is_marker raw = false) before →
  is_course_line cl = true →
  Forall (λ raw, is_course_line raw = false) body →
  closes rest →
  (Forall (λ raw, is_marker raw = false) body →
   parse_courses text = parse_lines rest) ∧
  (Exists (λ raw, is_marker raw = true) body →
   ∃ tail, parse_courses text =
     Course (code_of_line cl) (description_after (strip cl) body)
       (majors_after [] body) :: tail).
Proof.
  intros Htext Hbefore Hcl Hbody Hrest. unfold parse_courses.
  fold (split_lines text). rewrite Htext. split.
  - intros Hnm. unfold parse_lines.
    fold (run (Parser [] None []) (before ++ cl :: body ++ rest)).
    fold (run (Parser [] None []) rest).
    rewrite run_app. change (cl :: body ++ rest) with ([cl] ++ body ++ rest).
    rewrite !run_app.
    destruct (run_no_marker (Parser [] None []) before Hbefore) as [Hc Hm]; [done..|].
    set (st := run (Parser [] None []) before) in *.
    unfold run at 3. simpl foldl. rewrite parse_line_course by done.
    assert (commit st = []) as ->.
    { unfold commit. rewrite Hc, Hm. by destruct (current_course st). }
    rewrite Hm, run_body by done. simpl.
    rewrite majors_after_no_marker by done.
    destruct rest as [|cl2 rest]; [done|]. simpl in Hrest.
    unfold run. simpl foldl. by rewrite !parse_line_course.
  - intros Hmk.
    destruct (parse_lines_block before cl body rest Hcl Hbody Hrest) as [tail ->].
    rewrite parse_lines_no_marker by done. unfold block_record.
    rewrite majors_after_block, (majors_after_no_marker [] before) by done.
    rewrite majors_after_marked by done. simpl. eauto.
Qed.

(** C5, as the code has it: the record of a block carries the majors value
    in effect when the block is closed, not the one in effect when its
    course-code line opened it.  A block without a marker of its own keeps
    the value it was opened under; a marker read after the course-code line
    and before the block is closed becomes the record's majors. *)
Theorem committed_majors_at_close (text : str) (before : list str) (cl : str)
    (body rest : list str) :
  split_lines text = before ++ cl :: body ++ rest →
  is_course_line cl = true →
  Forall (λ raw, is_course_line raw = false) body →
  closes rest →
  (∃ tail, parse_courses text =
     parse_lines before ++ block_record before cl body ++ tail) ∧
  (Forall (λ raw, is_marker raw = false) body →
   block_record before cl body =
     if truthy (majors_after [] before)
     then [Course (code_of_line cl) (description_after (strip cl) body)
             (majors_after [] before)]
     else []) ∧
  (∀ l1 mk l2,
     body = l1 ++ mk :: l2 → is_marker mk = true →
     Forall (λ raw, is_marker raw = false) l2 →
     block_record before cl body =
       [Course (code_of_line cl) (description_after (strip cl) body) (strip mk)]).
Proof.
  intros Htext Hcl Hbody Hrest. split_and!.
  - unfold parse_courses. fold (split_lines text). rewrite Htext.
    by apply parse_lines_block.
  - intros Hnm. unfold block_record.
    by rewrite majors_after_block, (majors_after_no_marker _ body).
  - intros l1 mk l2 -> Hmk Hl2. unfold block_record.
    rewrite majors_after_block, majors_after_last by done.
    by rewrite (valid_majors_truthy _ (marker_truthy _ Hmk)).
Qed.

Lemma block_before_first_marker_witness :
  split_lines orphan_block_text =
    [] ++ py "EEL 4750 Signals" :: [py "EE"] ++ [py "EEL 4751 Systems"] ∧
  (Forall (λ raw, is_marker raw = false) [py "EE"] →
   parse_courses orphan_block_text = parse_lines [py "EEL 4751 Systems"]) ∧
  (Exists (λ raw, is_marker raw = true) [py "EE"] →
   ∃ tail, parse_courses orphan_block_text =
     Course (code_of_line (py "EEL 4750 Signals"))
       (description_after (strip (py "EEL 4750 Signals")) [py "EE"])
       (majors_after [] [py "EE"]) :: tail).
Proof.
  split; [by vm_compute|].
  apply (block_before_first_marker orphan_block_text [] (py "EEL 4750 Signals")
           [py "EE"] [py "EEL 4751 Systems"]).
  - by vm_compute.
  - constructor.
  - by vm_compute.
  - repeat constructor.
  - by vm_compute.
Defined.

(** The block ahead of the first marker is committed all the same when the
    marker comes before the next course-code line. *)
Lemma orphan_block_committed :
  split_lines orphan_block_text =
    [py "EEL 4750 Signals"; py "EE"; py "EEL 4751 Systems"] ∧
  is_course_line (py "EEL 4750 Signals") = true ∧
  is_marker (py "EE") = true ∧
  parse_courses orphan_block_text =
    [Course (py "EEL 4750") (py "EEL 4750 Signals") (py "EE");
     Course (py "EEL 4751") (py "EEL 4751 Systems") (py "EE")].
Proof. by vm_compute. Qed.

Lemma committed_majors_at_close_witness :
  split_lines remarked_block_text =
    [py "EE"] ++ py "EEL 4750 Signals" :: [py "CpE"] ++ [py "EEL 4751 Systems"] ∧
  (∃ tail, parse_courses remarked_block_text =
     parse_lines [py "EE"]
     ++ block_record [py "EE"] (py "EEL 4750 Signals") [py "CpE"] ++ tail) ∧
  (Forall (λ raw, is_marker raw = false) [py "CpE"] →
   block_record [py "EE"] (py "EEL 4750 Signals") [py "CpE"] =
     if truthy (majors_after [] [py "EE"])
     then [Course (code_of_line (py "EEL 4750 Signals"))
             (description_after (strip (py "EEL 4750 Signals")) [py "CpE"])
             (majors_after [] [py "EE"])]
     else []) ∧
  (∀ l1 mk l2,
     [py "CpE"] = l1 ++ mk :: l2 → is_marker mk = true →
     Forall (λ raw, is_marker raw = false) l2 →
     block_record [py "EE"] (py "EEL 4750 Signals") [py "CpE"] =
       [Course (code_of_line (py "EEL 4750 Signals"))
          (description_after (strip (py "EEL 4750 Signals")) [py "CpE"])
          (strip mk)]).
Proof.
  split; [by vm_compute|].
  apply (committed_majors_at_close remarked_block_text [py "EE"]
           (py "EEL 4750 Signals") [py "CpE"] [py "EEL 4751 Systems"]).
  - by vm_compute.
  - by vm_compute.
  - repeat constructor.
  - by vm_compute.
Defined.

(** The record opened under [EE] is committed under [CpE], the marker read
    before the next course-code line. *)
Lemma open_record_remarked :
  split_lines remarked_block_text =
    [py "EE"; py "EEL 4750 Signals"; py "CpE"; py "EEL 4751 Systems"] ∧
  is_marker (py "EE") = true ∧
  is_course_line (py "EEL 4750 Signals") = true ∧
  is_marker (py "CpE") = true ∧
  majors_after [] [py "EE"] = py "EE" ∧
  parse_courses remarked_block_text =
    [Course (py "EEL 4750") (py "EEL 4750 Signals") (py "CpE");
     Course (py "EEL 4751") (py "EEL 4751 Systems") (py "CpE")].
Proof. by vm_compute. Qed.

(** ** Lookup by major *)

(** C1: [search_courses_by_major] tests the major as a substring of the
    majors string.  The catalog of [ee2_catalog_text] has one course, listed
    under the major [EE2] only; the search for [EE] returns it. *)
Theorem search_by_major_substring :
  parse_courses ee2_catalog_text = [ee2_course] ∧
  majors_list ee2_course = [py "EE2"] ∧
  (py "EE" ∉ majors_list ee2_course) ∧
  search_courses_by_major (parse_courses ee2_catalog_text) (py "EE") = [ee2_course].
Proof.
  split_and!.
  - by vm_compute.
  - by vm_compute.
  - vm_compute. intros H. apply list_elem_of_singleton in H. discriminate.
  - by vm_compute.
Qed.

(** The search keeps the order of the catalog. *)
Lemma search_by_major_sublist cs major : search_courses_by_major cs major `sublist_of` cs.
Proof. apply sublist_filter. Qed.

Lemma contains_spec (sub s : str) :
  contains sub s = true ↔ ∃ pre post, s = pre ++ sub ++ post.
Proof.
  induction s as [|a s IH]; simpl.
  - rewrite orb_false_r, startswith_spec. split.
    + intros [rest H]. exists [], rest. done.
    + intros (pre & post & H). symmetry in H.
      apply app_eq_nil in H as [-> H]. apply app_eq_nil in H as [-> ->].
      by exists [].
  - rewrite orb_true_iff, startswith_spec, IH. split.
    + intros [[rest H] | (pre & post & ->)].
      * exists [], rest. done.
      * by exists (a :: pre), post.
    + intros (pre & post & H). destruct pre as [|b pre]; simpl in H.
      * left. eauto.
      * right. injection H as -> ->. eauto.
Qed.

(** Every piece that [split] cuts is a substring of the string. *)
Lemma split_aux_pieces fuel (sep cur s x : str) :
  x ∈ split_aux fuel sep cur s → ∃ pre post, rev cur ++ s = pre ++ x ++ post.
Proof.
  revert cur s. induction fuel as [|fuel IH]; intros cur s Hx; cbn [split_aux] in Hx.
  { apply list_elem_of_singleton in Hx as ->. by exists [], s. }
  destruct s as [|c s].
  { apply list_elem_of_singleton in Hx as ->. by exists [], []. }
  destruct (startswith sep (c :: s)).
  - apply elem_of_cons in Hx as [->|Hx]; [by exists [], (c :: s)|].
    apply IH in Hx as (pre & post & Hx). simpl in Hx.
    exists (rev cur ++ take (length sep) (c :: s) ++ pre), post.
    rewrite <- (take_drop (length sep) (c :: s)) at 1. rewrite Hx.
    by rewrite <- !app_assoc.
  - apply IH in Hx as (pre & post & Hx). exists pre, post.
    rewrite <- Hx. simpl. by rewrite <- app_assoc.
Qed.

(** A record that has the major in its list of majors is returned. *)
Lemma search_by_major_complete cs major c :
  c ∈ cs → major ∈ majors_list c → c ∈ search_courses_by_major cs major.
Proof.
  intros Hc Hm. apply list_elem_of_filter. split; [|done].
  apply Is_true_true, contains_spec.
  apply split_aux_pieces in Hm as (pre & post & Hm). simpl in Hm. eauto.
Qed.

(** ** The academic-level classifier *)


(** The substring test on the lower-cased text is the case-insensitive one. *)
Lemma contains_lower (phrase s : str) :
  contains phrase (lower s) = true ↔
  ∃ pre mid post, s = pre ++ mid ++ post ∧ lower mid = phrase.
Proof.
  rewrite contains_spec. unfold lower. split.
  - intros (pre & post & H).
    apply fmap_app_inv in H as (pre' & t & _ & H & ->). symmetry in H.
    apply fmap_app_inv in H as (mid & post' & Hmid & _ & ->).
    by exists pre', mid, post'.
  - intros (pre & mid & post & -> & Hmid). subst phrase.
    exists (tolower <$> pre), (tolower <$> post).
    by rewrite !fmap_app.
Qed.

Lemma re_search_hit r (s : str) m : re_match r s = Some m → re_search r s = Some m.
Proof. intros H. destruct s; simpl; by rewrite H. Qed.

Lemma re_match_number_digits (ds rest : str) :
  length ds = 4 → Forall (λ c, isdigit c = true) ds →
  re_match number_re (ds ++ rest) = Some (MatchObj ds (Some ds) rest).
Proof.
  intros Hlen Hds.
  destruct ds as [|d1 [|d2 [|d3 [|d4 [|]]]]]; try discriminate.
  repeat (apply Forall_cons in Hds as [?H Hds]).
  unfold re_match, number_re. simpl. rewrite H, H0, H1, H2.
  replace (S (S (S (S (length rest)))) - length rest) with 4 by lia. done.
Qed.

Lemma re_match_number_nondigit (c : ascii) (s : str) :
  isdigit c = false → re_match number_re (c :: s) = None.
Proof. intros H. unfold re_match, number_re. simpl. by rewrite H. Qed.

(** The number of a code: its first four digits, when only letters and
    whitespace come before them. *)
Lemma course_number_digits (pre ds rest : str) :
  Forall (λ c, isdigit c = false) pre →
  length ds = 4 → Forall (λ c, isdigit c = true) ds →
  course_number (pre ++ ds ++ rest) = Some (int ds).
Proof.
  intros Hpre Hlen Hds. unfold course_number.
  assert (re_search number_re (pre ++ ds ++ rest) = Some (MatchObj ds (Some ds) rest))
    as ->; [|done].
  induction Hpre as [|c pre Hc _ IH]; simpl.
  - by apply re_search_hit, re_match_number_digits.
  - by rewrite re_match_number_nondigit.
Qed.

Lemma grad_phrase_iff (desc : str) :
  existsb (λ indicator, contains indicator (lower desc)) grad_indicators = true ↔
  ∃ phrase pre mid post,
    phrase ∈ grad_indicators ∧ desc = pre ++ mid ++ post ∧ lower mid = phrase.
Proof.
  rewrite existsb_exists. split.
  - intros (phrase & Hin & H). apply list_elem_of_In in Hin.
    apply contains_lower in H as (pre & mid & post & ? & ?).
    by exists phrase, pre, mid, post.
  - intros (phrase & pre & mid & post & Hin & Hd & Hm). exists phrase.
    split; [by apply list_elem_of_In|]. apply contains_lower. eauto.
Qed.

(** C7: [is_graduate_course] answers true when the number of the code is
    5000 or more, whatever the text says; otherwise it answers true exactly
    when the text contains, case-insensitively, one of the six phrases of
    [grad_indicators]; otherwise false.  The number of a code is the value
    of its first four digits.  [EEL 5513] is graduate; [EEL 3801C] with a
    text without the phrases is not. *)
Theorem is_graduate_course_rules (c : course) :
  (∀ n, course_number (course_code c) = Some n → (5000 ≤ n)%Z →
        is_graduate_course c = true) ∧
  ((∀ n, course_number (course_code c) = Some n → (n < 5000)%Z) →
   (is_graduate_course c = true ↔
    ∃ phrase pre mid post,
      phrase ∈ grad_indicators ∧
      full_description c = pre ++ mid ++ post ∧ lower mid = phrase)) ∧
  grad_indicators =
    [py "graduate standing"; py "grad standing"; py "admission to mat degree";
     py "graduate student"; py "pr: graduate"; py "prerequisite: graduate"] ∧
  (∀ pre ds rest,
     Forall (λ x, isdigit x = false) pre →
     length ds = 4 → Forall (λ x, isdigit x = true) ds →
     course_number (pre ++ ds ++ rest) = Some (int ds)) ∧
  (∀ desc m, is_graduate_course (Course (py "EEL 5513") desc m) = true) ∧
  (∀ desc m,
     Forall (λ phrase, contains phrase (lower desc) = false) grad_indicators →
     is_graduate_course (Course (py "EEL 3801C") desc m) = false).
Proof.
  split_and!.
  - intros n Hn Hge. unfold is_graduate_course. rewrite Hn.
    by rewrite bool_decide_true.
  - intros Hlt. unfold is_graduate_course.
    destruct (course_number (course_code c)) as [n|] eqn:Hn.
    + rewrite bool_decide_false by (specialize (Hlt n eq_refl); lia).
      apply grad_phrase_iff.
    + apply grad_phrase_iff.
  - done.
  - apply course_number_digits.
  - done.
  - intros desc m H. unfold is_graduate_course.
    change (course_number (course_code (Course (py "EEL 3801C") desc m)))
      with (Some 3801%Z).
    cbv beta iota. rewrite bool_decide_false by lia. simpl full_description.
    apply not_true_is_false. rewrite existsb_exists. intros (phrase & Hin & Hc).
    apply list_elem_of_In in Hin. rewrite Forall_forall in H.
    rewrite (H phrase Hin) in Hc. discriminate.
Qed.

Lemma is_graduate_course_rules_witness :
  Forall (λ phrase, contains phrase (lower (full_description organization_course)) = false)
    grad_indicators ∧
  is_graduate_course organization_course = false.
Proof.
  assert (Forall (λ phrase,
            contains phrase (lower (full_description organization_course)) = false)
            grad_indicators) as H.
  { repeat constructor. }
  split; [exact H|].
  destruct (is_graduate_course_rules organization_course) as (_ & _ & _ & _ & _ & Hrule).
  exact (Hrule (full_description organization_course) (majors organization_course) H).
Defined.

(** ** Greedy repetition of a character class *)

Section star.
Context {T : Type}.
Implicit Types (k : @cont T) (s : str) (g : option str).

Lemma star_loop_chr p k n s g :
  length s ≤ n → star_loop (exec (Chr p)) k n s g = greedy p k s g.
Proof.
  revert s. induction n as [|n IH]; intros s Hn.
  - destruct s; [done | simpl in Hn; lia].
  - destruct s as [|c s]; [done|]. simpl in *.
    destruct (p c); [|done].
    replace (length s <? S (length s)) with true
      by (symmetry; apply Nat.ltb_lt; lia).
    rewrite IH by lia. done.
Qed.

Lemma exec_star_chr p k s g : exec (Star (Chr p)) s g k = greedy p k s g.
Proof. simpl. by apply star_loop_chr. Qed.

(** When [k] accepts what follows the longest run, that is the answer. *)
Lemma greedy_longest p k s g x :
  k (drop_class p s) g = Some x → greedy p k s g = Some x.
Proof.
  induction s as [|c s IH]; simpl; [done|].
  destruct (p c); [|done]. intros H. by rewrite IH.
Qed.

(** When [k] rejects every string that starts with a character of the
    class, only the longest run can do. *)
Lemma greedy_only_longest p k s g :
  (∀ c s', p c = true → k (c :: s') g = None) →
  greedy p k s g = k (drop_class p s) g.
Proof.
  intros Hk. induction s as [|c s IH]; simpl; [done|].
  destruct (p c) eqn:E; [|done]. rewrite IH, Hk by done.
  by destruct (k (drop_class p s) g).
Qed.
End star.

Lemma take_drop_class p (s : str) : take_class p s ++ drop_class p s = s.
Proof. induction s as [|c s IH]; simpl; [done|]. destruct (p c); simpl; congruence. Qed.

Lemma take_class_Forall p (s : str) : Forall (λ c, p c = true) (take_class p s).
Proof.
  induction s as [|c s IH]; simpl; [done|]. destruct (p c) eqn:E; by constructor.
Qed.

Lemma drop_class_head p (s : str) :
  match drop_class p s with
  | c :: _ => p c = false
  | [] => True
  end.
Proof. induction s as [|c s IH]; simpl; [done|]. by destruct (p c) eqn:E. Qed.

Lemma drop_class_length p (s : str) : length (drop_class p s) ≤ length s.
Proof. induction s as [|c s IH]; simpl; [done|]. destruct (p c); simpl; lia. Qed.

Lemma drop_class_none p (s : str) :
  Forall (λ c, p c = false) s → drop_class p s = s.
Proof. destruct 1 as [|c s H _]; simpl; [done|]. by rewrite H. Qed.

Lemma lstrip_drop_class (s : str) : lstrip s = drop_class isspace s.
Proof. induction s as [|c s IH]; simpl; [done|]. by rewrite IH. Qed.

(** The text a match consumed, from the input and what is left of it. *)
Lemma take_consumed (s m rest : str) :
  s = m ++ rest → take (length s - length rest) s = m.
Proof.
  intros ->. rewrite length_app. replace (length m + length rest - length rest) with (length m) by lia.
  by rewrite take_app_length.
Qed.

(** ** Normalization: [re.sub(r'\s+', ' ', s.strip())] *)

Lemma re_match_ws_plus (c : ascii) (s : str) :
  re_match (Plus ws) (c :: s) =
    if isspace c
    then Some (MatchObj (c :: take_class isspace s) None (drop_class isspace s))
    else None.
Proof.
  unfold re_match, Plus, ws. rewrite exec_cat_chr. destruct (isspace c); [|done].
  rewrite exec_star_chr. erewrite greedy_longest; [|reflexivity].
  do 2 f_equal. apply take_consumed. simpl. by rewrite take_drop_class.
Qed.

Lemma collapse_from_run (s : str) :
  collapse_from true s = collapse_from false (drop_class isspace s).
Proof.
  induction s as [|c s IH]; simpl; [done|].
  destruct (isspace c) eqn:E; [done|]. simpl. by rewrite E.
Qed.

Lemma sub_aux_ws_plus fuel (s : str) :
  length s < fuel → sub_aux fuel (Plus ws) (py " ") s = collapse_whitespace s.
Proof.
  unfold collapse_whitespace. revert s.
  induction fuel as [|fuel IH]; intros s Hlen; [lia|].
  destruct s as [|c s]; [done|]. cbn [sub_aux]. rewrite re_match_ws_plus.
  simpl in Hlen. simpl collapse_from. destruct (isspace c) eqn:E.
  - cbn [m_rest]. pose proof (drop_class_length isspace s) as Hd.
    replace (length (drop_class isspace s) <? length (c :: s)) with true
      by (symmetry; apply Nat.ltb_lt; simpl; lia).
    rewrite IH by lia. by rewrite collapse_from_run.
  - by rewrite IH by lia.
Qed.

(** The code's normalization is the collapse of the stripped string. *)
Lemma normalized_collapse (s : str) : normalized s = collapse_whitespace (strip s).
Proof. unfold normalized, re_sub. apply sub_aux_ws_plus. lia. Qed.

Lemma collapse_no_space (s : str) :
  Forall (λ c, isspace c = false) s → collapse_whitespace s = s.
Proof.
  unfold collapse_whitespace. induction 1 as [|c s H _ IH]; simpl; [done|].
  by rewrite H, IH.
Qed.

Lemma collapse_has_space (s : str) :
  Exists (λ c, isspace c = true) s → " "%char ∈ collapse_whitespace s.
Proof.
  unfold collapse_whitespace. induction 1 as [c s H | c s _ IH]; simpl.
  - rewrite H. left.
  - destruct (isspace c); [left | by right].
Qed.

Lemma lstrip_no_space (s : str) : Forall (λ c, isspace c = false) s → lstrip s = s.
Proof. rewrite lstrip_drop_class. apply drop_class_none. Qed.

Lemma strip_no_space (s : str) : Forall (λ c, isspace c = false) s → strip s = s.
Proof.
  intros H. unfold strip, rstrip. rewrite (lstrip_no_space s H).
  rewrite lstrip_no_space; [apply rev_involutive|].
  apply Forall_forall. intros c Hc. rewrite Forall_forall in H. apply H.
  apply list_elem_of_In. apply list_elem_of_In, in_rev in Hc. done.
Qed.

Lemma lstrip_visible (a t : str) :
  Exists (λ x, isspace x = false) a → lstrip (a ++ t) = lstrip a ++ t.
Proof.
  induction 1 as [c a H | c a _ IH]; simpl.
  - by rewrite H.
  - by destruct (isspace c).
Qed.

Lemma strip_inner_space (s : str) :
  has_inner_space s → Exists (λ c, isspace c = true) (strip s).
Proof.
  intros (a & w & b & -> & Hw & Ha & Hb). unfold strip, rstrip.
  rewrite lstrip_visible by done. rewrite rev_app_distr. simpl.
  rewrite <- app_assoc. rewrite lstrip_visible.
  - apply Exists_exists. exists w. split; [|done].
    apply list_elem_of_In, in_rev. rewrite rev_involutive.
    apply in_or_app. right. by left.
  - apply Exists_exists in Hb as (x & Hx & Hsx). apply Exists_exists.
    exists x. split; [|done]. apply list_elem_of_In, in_rev.
    rewrite rev_involutive. by apply list_elem_of_In.
Qed.

Lemma toupper_space (c : ascii) : toupper c = " "%char → c = " "%char.
Proof. destruct c as [[] [] [] [] [] [] [] []]; vm_compute; congruence. Qed.

Lemma isspace_space : isspace " " = true.
Proof. reflexivity. Qed.

(** A code written without whitespace and an entry written with whitespace
    inside have different normal forms. *)
Lemma normal_form_spaced (p e : str) :
  Forall (λ c, isspace c = false) p → has_inner_space e →
  normal_form e ≠ normal_form p.
Proof.
  intros Hp He Heq. unfold normal_form in Heq. rewrite !normalized_collapse in Heq.
  rewrite (strip_no_space p Hp), (collapse_no_space p Hp) in Heq.
  assert (" "%char ∈ upper p) as Hin.
  { rewrite <- Heq. unfold upper.
    apply (list_elem_of_fmap_2 toupper _ " "%char).
    by apply collapse_has_space, strip_inner_space. }
  unfold upper in Hin. apply list_elem_of_fmap in Hin as (c & Hc & Hin).
  symmetry in Hc. apply toupper_space in Hc as ->.
  rewrite Forall_forall in Hp. specialize (Hp _ Hin). by rewrite isspace_space in Hp.
Qed.

(** ** The eligibility engine *)

Lemma found_met_by (prereq : str) (completed_courses : list str) :
  found (normalized prereq) completed_courses = true ↔ met_by completed_courses prereq.
Proof.
  unfold met_by, normal_form.
  induction completed_courses as [|completed rest IH]; simpl.
  - split; [done | by intros H%Exists_nil].
  - rewrite Exists_cons. case_bool_decide as E.
    + split; [by left | done].
    + rewrite IH. split; [by right | by intros [?|?]].
Qed.

Lemma missing_prereqs_of_filter (course_prereqs completed_courses : list str) :
  missing_prereqs_of course_prereqs completed_courses =
    filter (λ prereq, ¬ met_by completed_courses prereq) course_prereqs.
Proof.
  induction course_prereqs as [|prereq rest IH]; simpl; [done|].
  destruct (found _ _) eqn:E.
  - apply found_met_by in E. by rewrite filter_cons_False by tauto.
  - rewrite filter_cons_True, IH; [done|].
    intros H. apply found_met_by in H. congruence.
Qed.

Lemma check_prerequisites_met_spec (course_prereqs completed_courses : list str) :
  check_prerequisites_met course_prereqs completed_courses =
    (bool_decide (missing_prereqs_of course_prereqs completed_courses = []),
     missing_prereqs_of course_prereqs completed_courses).
Proof.
  unfold check_prerequisites_met. destruct course_prereqs as [|p ps]; [done|].
  f_equal. apply bool_decide_ext. by rewrite length_zero_iff_nil.
Qed.

Lemma eligibility_entry_spec (completed_courses : list str) (c : course) :
  eligibility_entry completed_courses c =
    CourseInfo c (parse_prerequisites (full_description c))
      (bool_decide (missing_prereqs_of (parse_prerequisites (full_description c))
                      completed_courses = []))
      (missing_prereqs_of (parse_prerequisites (full_description c)) completed_courses)
      (is_graduate_course c).
Proof. unfold eligibility_entry. by rewrite check_prerequisites_met_spec. Qed.

Lemma entry_met_spec (completed_courses : list str) (c : course) :
  let e := eligibility_entry completed_courses c in
  info_course e = c ∧
  prerequisites e = parse_prerequisites (full_description c) ∧
  missing_prereqs e =
    filter (λ prereq, ¬ met_by completed_courses prereq) (prerequisites e) ∧
  (∀ prereq,
     prereq ∈ prerequisites e →
     (prereq ∉ missing_prereqs e ↔
      ∃ completed, completed ∈ completed_courses ∧
        upper (collapse_whitespace (strip completed)) =
          upper (collapse_whitespace (strip prereq)))) ∧
  (prereqs_met e = true ↔ missing_prereqs e = []) ∧
  (prerequisites e = [] → prereqs_met e = true).
Proof.
  cbn zeta. rewrite eligibility_entry_spec.
  cbn [info_course prerequisites missing_prereqs prereqs_met].
  split_and!.
  - done.
  - done.
  - apply missing_prereqs_of_filter.
  - intros prereq Hin. rewrite missing_prereqs_of_filter, list_elem_of_filter.
    assert (met_by completed_courses prereq ↔
            ∃ completed, completed ∈ completed_courses ∧
              upper (collapse_whitespace (strip completed)) =
                upper (collapse_whitespace (strip prereq))) as Hmet.
    { unfold met_by, normal_form. rewrite Exists_exists.
      split; intros (completed & Hc & Heq); exists completed; (split; [done|]);
        by rewrite <- ?normalized_collapse, ?normalized_collapse in *. }
    rewrite <- Hmet. split.
    + intros H. destruct (decide (met_by completed_courses prereq)) as [Hm|Hm]; [done|].
      exfalso. apply H. by split.
    + intros Hm [Hn _]. by apply Hn.
  - apply bool_decide_eq_true.
  - intros ->. done.
Qed.

(** C2, as the code has it: the report of [get_eligible_courses] has one entry for each
    record that passes the level and major filters, in the order of the
    records.  In every entry the prerequisites are those extracted from the
    description; a prerequisite is met exactly when some completed entry,
    with the whitespace at its two ends removed, its runs of whitespace
    collapsed to single spaces and its letters uppercased, is equal to the
    prerequisite so normalized; [missing_prereqs] is the list of the unmet
    prerequisites in extraction order; [prereqs_met] holds exactly when it
    is empty, so always for a record without prerequisites.
    [check_prerequisites_met] returns that verdict and that list.
    [eel 3801c] meets [EEL 3801C], and so does the same code written with
    whitespace around it; [EEL 4750] and [EEL 4750C] do not meet each
    other. *)
Theorem eligibility_prerequisites_met (cs : list course) (completed_courses : list str)
    (major : option str) (academic_level : str) :
  info_course <$> get_eligible_courses cs completed_courses major academic_level =
    filter (λ c, major_passes major c) (filter_by_academic_level cs academic_level) ∧
  Forall (λ e,
      prerequisites e = parse_prerequisites (full_description (info_course e)) ∧
      missing_prereqs e =
        filter (λ prereq, ¬ met_by completed_courses prereq) (prerequisites e) ∧
      (∀ prereq,
         prereq ∈ prerequisites e →
         (prereq ∉ missing_prereqs e ↔
          ∃ completed, completed ∈ completed_courses ∧
            upper (collapse_whitespace (strip completed)) =
              upper (collapse_whitespace (strip prereq)))) ∧
      (prereqs_met e = true ↔ missing_prereqs e = []) ∧
      (prerequisites e = [] → prereqs_met e = true))
    (get_eligible_courses cs completed_courses major academic_level) ∧
  (∀ s, normal_form s = upper (collapse_whitespace (strip s))) ∧
  (∀ prereqs,
     (check_prerequisites_met prereqs completed_courses).2 =
       filter (λ prereq, ¬ met_by completed_courses prereq) prereqs ∧
     ((check_prerequisites_met prereqs completed_courses).1 = true ↔
      (check_prerequisites_met prereqs completed_courses).2 = [])) ∧
  check_prerequisites_met [py "EEL 3801C"] [py "eel 3801c"] = (true, []) ∧
  check_prerequisites_met [py "EEL 3801C"] [py " EEL  3801C "] = (true, []) ∧
  check_prerequisites_met [py "EEL 4750"] [py "EEL 4750C"] = (false, [py "EEL 4750"]) ∧
  check_prerequisites_met [py "EEL 4750C"] [py "EEL 4750"] = (false, [py "EEL 4750C"]).
Proof.
  split_and!.
  - unfold get_eligible_courses.
    generalize (filter (λ c, major_passes major c)
                  (filter_by_academic_level cs academic_level)).
    intros l. induction l as [|c l IH]; [done|].
    rewrite !fmap_cons, IH. by destruct (entry_met_spec completed_courses c) as [-> _].
  - unfold get_eligible_courses. apply Forall_fmap, Forall_forall. intros c _.
    unfold compose. destruct (entry_met_spec completed_courses c) as (Hc & H).
    cbn zeta in *. by rewrite Hc.
  - intros s. unfold normal_form. by rewrite normalized_collapse.
  - intros prereqs. rewrite check_prerequisites_met_spec. cbn [fst snd]. split.
    + apply missing_prereqs_of_filter.
    + apply bool_decide_eq_true.
  - by vm_compute.
  - by vm_compute.
  - by vm_compute.
  - by vm_compute.
Qed.

Lemma eligibility_prerequisites_met_witness :
  prereqs_met <$> get_eligible_courses [architecture_course; dsp_course]
                    [py " eel  3801c "] None (py "undergraduate") = [true; false] ∧
  missing_prereqs <$> get_eligible_courses [architecture_course; dsp_course]
                        [py " eel  3801c "] None (py "undergraduate") =
    [[]; [py "EEL 9999"]] ∧
  info_course <$> get_eligible_courses [architecture_course; dsp_course]
                    [py " eel  3801c "] None (py "undergraduate") =
    filter (λ c, major_passes None c)
      (filter_by_academic_level [architecture_course; dsp_course] (py "undergraduate")).
Proof.
  split; [by vm_compute|]. split; [by vm_compute|].
  exact (proj1 (eligibility_prerequisites_met [architecture_course; dsp_course]
                  [py " eel  3801c "] None (py "undergraduate"))).
Defined.

(** A completed entry written with whitespace before the code meets the
    prerequisite [EEL 3801C] of a record all the same, although the two
    strings differ once their whitespace is collapsed and their letters are
    uppercased: the ends are trimmed before the comparison. *)
Lemma padded_entry_meets :
  prerequisites <$> get_eligible_courses [architecture_course] [py " EEL 3801C"] None
                      (py "undergraduate") = [[py "EEL 3801C"]] ∧
  prereqs_met <$> get_eligible_courses [architecture_course] [py " EEL 3801C"] None
                    (py "undergraduate") = [true] ∧
  missing_prereqs <$> get_eligible_courses [architecture_course] [py " EEL 3801C"] None
                        (py "undergraduate") = [[]] ∧
  check_prerequisites_met [py "EEL 3801C"] [py " EEL 3801C"] = (true, []) ∧
  ¬ ∃ completed, completed ∈ [py " EEL 3801C"] ∧
      collapsed_upper completed = collapsed_upper (py "EEL 3801C").
Proof.
  split_and!; try by vm_compute.
  intros (completed & ->%list_elem_of_singleton & H). vm_compute in H. discriminate.
Qed.

(** C10: the code grammar of a clause accepts a code without whitespace
    ([PR: EEL4750.] yields [EEL4750], kept as written), and normalization
    leaves a string without whitespace as it is; so a prerequisite written
    without whitespace is missing, and the record not met, whenever every
    completed entry is written with whitespace inside. *)
Theorem unspaced_prerequisite_missing :
  parse_prerequisites (py "PR: EEL4750.") = [py "EEL4750"] ∧
  (∀ s, Forall (λ x, isspace x = false) s → normalized s = s) ∧
  (∀ (completed_courses : list str) (c : course) (prereq : str),
     prereq ∈ parse_prerequisites (full_description c) →
     Forall (λ x, isspace x = false) prereq →
     Forall has_inner_space completed_courses →
     prereq ∈ missing_prereqs (eligibility_entry completed_courses c) ∧
     prereqs_met (eligibility_entry completed_courses c) = false).
Proof.
  split_and!.
  - by vm_compute.
  - intros s Hs. by rewrite normalized_collapse, strip_no_space, collapse_no_space.
  - intros completed_courses c prereq Hin Hp Hc.
    rewrite eligibility_entry_spec. cbn [missing_prereqs prereqs_met].
    assert (prereq ∈ missing_prereqs_of (parse_prerequisites (full_description c))
                       completed_courses) as Hmiss.
    { rewrite missing_prereqs_of_filter. apply list_elem_of_filter. split; [|done].
      unfold met_by. rewrite Exists_exists. intros (e & He & Heq).
      rewrite Forall_forall in Hc. by apply (normal_form_spaced prereq e Hp (Hc e He)). }
    split; [done|]. apply bool_decide_eq_false. intros Hnil.
    rewrite Hnil in Hmiss. by apply not_elem_of_nil in Hmiss.
Qed.

Lemma unspaced_prerequisite_missing_witness :
  py "EEL4750" ∈ parse_prerequisites (full_description unspaced_course) ∧
  Forall (λ x, isspace x = false) (py "EEL4750") ∧
  Forall has_inner_space [py "EEL 4750"; py "eel 4750"] ∧
  py "EEL4750" ∈
    missing_prereqs (eligibility_entry [py "EEL 4750"; py "eel 4750"] unspaced_course) ∧
  prereqs_met (eligibility_entry [py "EEL 4750"; py "eel 4750"] unspaced_course) = false.
Proof.
  assert (py "EEL4750" ∈ parse_prerequisites (full_description unspaced_course)) as H1.
  { vm_compute. left. }
  assert (Forall (λ x, isspace x = false) (py "EEL4750")) as H2.
  { repeat constructor. }
  assert (Forall has_inner_space [py "EEL 4750"; py "eel 4750"]) as H3.
  { repeat constructor.
    - exists (py "EEL"), " "%char, (py "4750"). repeat split; by left.
    - exists (py "eel"), " "%char, (py "4750"). repeat split; by left. }
  split_and!; [exact H1 | exact H2 | exact H3 | |];
    destruct unspaced_prerequisite_missing as (_ & _ & Hall);
    apply (Hall [py "EEL 4750"; py "eel 4750"] unspaced_course (py "EEL4750") H1 H2 H3).
Defined.

(** ** The prerequisite extractor *)

Section header.
Context {T : Type}.
Implicit Types (k : @cont T) (s : str) (g : option str).

Lemma exec_lit_i h s g k :
  exec (lit_i h) s g k =
    if startswith_ci h s then k (drop (length h) s) g else None.
Proof.
  revert s. induction h as [|a h IH]; intros s; simpl; [done|].
  destruct s as [|b s]; simpl; [done|].
  destruct (Ascii.eqb (tolower b) (tolower a)); simpl; [apply IH | done].
Qed.
End header.

Lemma isspace_not_period (c : ascii) : isspace c = true → not_period c = true.
Proof. destruct c as [[] [] [] [] [] [] [] []]; vm_compute; congruence. Qed.

Lemma take_class_app p (w u : str) :
  Forall (λ c, p c = true) w → take_class p (w ++ u) = w ++ take_class p u.
Proof. induction 1 as [|c w H _ IH]; simpl; [done|]. by rewrite H, IH. Qed.

Lemma drop_class_app p (w u : str) :
  Forall (λ c, p c = true) w → drop_class p (w ++ u) = drop_class p u.
Proof. induction 1 as [|c w H _ IH]; simpl; [done|]. by rewrite H, IH. Qed.

Lemma strip_leading_space (c : ascii) (s : str) :
  isspace c = true → strip (c :: s) = strip s.
Proof. intros H. unfold strip. simpl. by rewrite H. Qed.

(** The group [([^.]+)] at [s'], under the last continuation of a match on
    [s]: the longest run of characters other than a period. *)
Lemma exec_clause_group (s s' : str) g :
  exec (Grp (Plus notdot)) s' g
    (λ s'' g', Some (MatchObj (take (length s - length s'') s) g' s'')) =
  match s' with
  | c :: r =>
      if not_period c
      then Some (MatchObj (take (length s - length (drop_class not_period r)) s)
                   (Some (c :: take_class not_period r)) (drop_class not_period r))
      else None
  | [] => None
  end.
Proof.
  unfold Plus, notdot. rewrite exec_grp. destruct s' as [|c r]; [done|].
  rewrite exec_cat_chr. destruct (not_period c); [|done].
  rewrite exec_star_chr. erewrite greedy_longest; [|reflexivity].
  do 3 f_equal. apply take_consumed. simpl. by rewrite take_drop_class.
Qed.

(** [\s*([^.]+)] on the text [t] that follows a header. *)
Lemma greedy_clause (s t : str) :
  match greedy isspace
          (λ s' g', exec (Grp (Plus notdot)) s' g'
             (λ s'' g'', Some (MatchObj (take (length s - length s'') s) g'' s'')))
          t None with
  | Some m =>
      strip (group1 m) = strip (take_class not_period t) ∧
      ∃ c t', t = c :: t' ∧ not_period c = true
  | None => match t with c :: _ => not_period c = false | [] => True end
  end.
Proof.
  induction t as [|c t IH]; cbn [greedy].
  { by rewrite exec_clause_group. }
  destruct (isspace c) eqn:Ec.
  - destruct (greedy _ _ t None) as [m|] eqn:Eg; cbn [orelse].
    + destruct IH as [IH _]. split; [|eauto using isspace_not_period].
      cbn [take_class]. rewrite (isspace_not_period c Ec).
      by rewrite strip_leading_space.
    + rewrite exec_clause_group, (isspace_not_period c Ec).
      cbn [take_class]. rewrite (isspace_not_period c Ec).
      split; [done | eauto using isspace_not_period].
  - rewrite exec_clause_group. destruct (not_period c) eqn:En; [|done].
    cbn [take_class]. rewrite En. split; [done | eauto].
Qed.

Lemma re_match_header (h s : str) :
  match re_match (header_re h) s with
  | Some m =>
      header_here h s = true ∧
      strip (group1 m) = strip (take_class not_period (drop (length h) s))
  | None => header_here h s = false
  end.
Proof.
  unfold re_match, header_re, header_here, ws. rewrite exec_cat, exec_lit_i.
  destruct (startswith_ci h s); [|done]. cbv beta. rewrite exec_cat, exec_star_chr.
  pose proof (greedy_clause s (drop (length h) s)) as H.
  destruct (greedy _ _ _ None) as [m|].
  - destruct H as [H (c & t' & Ht & Hc)]. rewrite Ht. cbn [andb]. rewrite Hc.
    split; [done|]. by rewrite <- Ht.
  - cbn [andb]. by destruct (drop (length h) s).
Qed.

(** The code's search for a header computes the clause of the spec. *)
Lemma re_search_header (h d : str) :
  (λ m, strip (group1 m)) <$> re_search (header_re h) d = clause_after h d.
Proof.
  induction d as [|c d IH]; cbn [re_search clause_after].
  - pose proof (re_match_header h []) as H.
    destruct (re_match (header_re h) []) as [m|].
    + destruct H as [Hh Hs]. rewrite Hh. cbn. by rewrite Hs.
    + by rewrite H.
  - pose proof (re_match_header h (c :: d)) as H.
    destruct (re_match (header_re h) (c :: d)) as [m|].
    + destruct H as [Hh Hs]. rewrite Hh. cbn. by rewrite Hs.
    + by rewrite H.
Qed.

Lemma first_clause_headers (hs : list str) (d : str) :
  first_clause (header_re <$> hs) d =
    foldr (λ h later, match clause_after h d with
                      | Some clause => Some clause
                      | None => later
                      end) None hs.
Proof.
  induction hs as [|h hs IH]; [done|].
  rewrite fmap_cons. cbn [first_clause foldr].
  rewrite <- re_search_header, IH. by destruct (re_search (header_re h) d).
Qed.

Lemma isspace_not_digit (c : ascii) : isspace c = true → isdigit c = false.
Proof. destruct c as [[] [] [] [] [] [] [] []]; vm_compute; congruence. Qed.

Lemma drop_class_stop p (x : str) :
  match x with c :: _ => p c = false | [] => True end → drop_class p x = x.
Proof. destruct x as [|c x]; simpl; [done|]. by intros ->. Qed.

(** What [re.match] computes for the course-code pattern. *)
Lemma re_match_code (s : str) :
  re_match code_re s =
    match s with
    | a :: b :: c :: t =>
        if isupper a && isupper b && isupper c then
          match drop_class isspace t with
          | d1 :: d2 :: d3 :: d4 :: u =>
              if isdigit d1 && isdigit d2 && isdigit d3 && isdigit d4 then
                let rest := match u with
                            | x :: u' => if isupper x then u' else u
                            | [] => []
                            end in
                Some (MatchObj (take (length s - length rest) s) None rest)
              else None
          | _ => None
          end
        else None
    | _ => None
    end.
Proof.
  unfold re_match, code_re, AZ, dgt, ws, Opt. cbn [Rep]. rewrite exec_cat.
  destruct s as [|a [|b [|c t]]]; try done.
  { rewrite exec_cat_chr. by destruct (isupper a). }
  { rewrite !exec_cat_chr. by destruct (isupper a), (isupper b). }
  rewrite exec_cat_chr. destruct (isupper a); [|done].
  rewrite exec_cat_chr. destruct (isupper b); [|done].
  rewrite exec_cat_chr. destruct (isupper c); [|done].
  cbn [andb]. rewrite exec_eps, exec_cat, exec_star_chr.
  rewrite greedy_only_longest.
  2:{ intros x s' Hx. rewrite exec_cat, exec_cat_chr.
      by rewrite (isspace_not_digit x Hx). }
  rewrite exec_cat.
  destruct (drop_class isspace t) as [|d1 [|d2 [|d3 [|d4 u]]]]; try done.
  { rewrite exec_cat_chr. by destruct (isdigit d1). }
  { rewrite !exec_cat_chr. by destruct (isdigit d1), (isdigit d2). }
  { rewrite !exec_cat_chr. by destruct (isdigit d1), (isdigit d2), (isdigit d3). }
  rewrite exec_cat_chr. destruct (isdigit d1); [|done].
  rewrite exec_cat_chr. destruct (isdigit d2); [|done].
  rewrite exec_cat_chr. destruct (isdigit d3); [|done].
  rewrite exec_cat_chr. destruct (isdigit d4); [|done].
  cbn [andb]. rewrite exec_eps. cbn [exec].
  destruct u as [|x u]; [done|]. by destruct (isupper x).
Qed.

Lemma is_code_intro (a b c d1 d2 d3 d4 : ascii) (w sfx : str) :
  isupper a = true → isupper b = true → isupper c = true →
  Forall (λ x, isspace x = true) w →
  isdigit d1 = true → isdigit d2 = true → isdigit d3 = true → isdigit d4 = true →
  length sfx ≤ 1 → Forall (λ x, isupper x = true) sfx →
  is_code (a :: b :: c :: w ++ d1 :: d2 :: d3 :: d4 :: sfx).
Proof.
  intros. exists [a; b; c], w, [d1; d2; d3; d4], sfx.
  split_and!; try done; by repeat constructor.
Qed.

(** A code that starts [s], taken apart along [s]. *)
Lemma is_code_inv (m rest : str) (a b c : ascii) (t : str) :
  is_code m → m ++ rest = a :: b :: c :: t →
  ∃ d1 d2 d3 d4 sfx,
    isupper a = true ∧ isupper b = true ∧ isupper c = true ∧
    drop_class isspace t = d1 :: d2 :: d3 :: d4 :: sfx ++ rest ∧
    isdigit d1 = true ∧ isdigit d2 = true ∧ isdigit d3 = true ∧ isdigit d4 = true ∧
    length sfx ≤ 1 ∧ Forall (λ x, isupper x = true) sfx ∧
    length m = 7 + length (take_class isspace t) + length sfx.
Proof.
  intros (l & w & d & sfx & -> & Hl & Hlu & Hw & Hd & Hdd & Hs & Hsu) Heq.
  destruct l as [|a' [|b' [|c' [|]]]]; try discriminate.
  destruct d as [|d1 [|d2 [|d3 [|d4 [|]]]]]; try discriminate.
  simpl in Heq. injection Heq as -> -> -> <-.
  repeat (apply Forall_cons in Hlu as [?Hu Hlu]).
  repeat (apply Forall_cons in Hdd as [?Hg Hdd]).
  assert (isspace d1 = false) as Hd1.
  { destruct (isspace d1) eqn:E; [|done]. apply isspace_not_digit in E. congruence. }
  exists d1, d2, d3, d4, sfx. split_and!; try done.
  - rewrite <- !app_assoc. rewrite drop_class_app by done. simpl. by rewrite Hd1.
  - rewrite <- !app_assoc. rewrite take_class_app by done. simpl. rewrite Hd1.
    rewrite !length_app. simpl. lia.
Qed.

Lemma re_match_code_sound (s : str) mo :
  re_match code_re s = Some mo →
  s = m_text mo ++ m_rest mo ∧ is_code (m_text mo) ∧
  (∀ m' rest', s = m' ++ rest' → is_code m' → length m' ≤ length (m_text mo)).
Proof.
  rewrite re_match_code. destruct s as [|a [|b [|c t]]]; try done.
  destruct (isupper a) eqn:Ea, (isupper b) eqn:Eb, (isupper c) eqn:Ec;
    cbn [andb]; try done.
  destruct (drop_class isspace t) as [|d1 [|d2 [|d3 [|d4 u]]]] eqn:Et; try done.
  destruct (isdigit d1) eqn:E1, (isdigit d2) eqn:E2, (isdigit d3) eqn:E3,
    (isdigit d4) eqn:E4; cbn [andb]; try done.
  cbv zeta. intros [= <-]. cbn [m_text m_rest].
  pose proof (take_drop_class isspace t) as Ht. rewrite Et in Ht.
  set (w := take_class isspace t) in *.
  assert (Forall (λ x, isspace x = true) w) as Hw by apply take_class_Forall.
  assert (∀ sfx rest, u = sfx ++ rest →
            take (S (S (S (length t))) - length rest) (a :: b :: c :: t) =
              a :: b :: c :: w ++ d1 :: d2 :: d3 :: d4 :: sfx) as Htake.
  { intros sfx rest ->. change (S (S (S (length t)))) with (length (a :: b :: c :: t)).
    apply take_consumed. rewrite <- Ht. simpl.
    rewrite <- !app_assoc. done. }
  destruct u as [|x u]; cbv beta iota.
  - rewrite (Htake [] []) by done. split_and!.
    + rewrite <- Ht. simpl. rewrite <- ?app_assoc. simpl. by rewrite ?app_nil_r.
    + apply is_code_intro; try done; simpl; lia.
    + intros m' rest' Heq Hm'. symmetry in Heq.
      destruct (is_code_inv m' rest' a b c t Hm' Heq)
        as (e1 & e2 & e3 & e4 & sfx' & _ & _ & _ & Hdrop & _ & _ & _ & _ & _ & _ & ->).
      rewrite Et in Hdrop. injection Hdrop as _ _ _ _ Hnil.
      symmetry in Hnil. apply app_eq_nil in Hnil as [-> _].
      fold w. rewrite !length_cons, !length_app. simpl. lia.
  - destruct (isupper x) eqn:Ex; cbv beta iota.
    + rewrite (Htake [x] u) by done. split_and!.
      * rewrite <- Ht. simpl. rewrite <- ?app_assoc. simpl. by rewrite ?app_nil_r.
      * apply is_code_intro; try done; try (simpl; lia); by repeat constructor.
      * intros m' rest' Heq Hm'. symmetry in Heq.
        destruct (is_code_inv m' rest' a b c t Hm' Heq)
          as (e1 & e2 & e3 & e4 & sfx' & _ & _ & _ & _ & _ & _ & _ & _ & Hs & _ & ->).
        fold w. rewrite !length_cons, !length_app. simpl. lia.
    + rewrite (Htake [] (x :: u)) by done. split_and!.
      * rewrite <- Ht. simpl. rewrite <- ?app_assoc. simpl. by rewrite ?app_nil_r.
      * apply is_code_intro; try done; simpl; lia.
      * intros m' rest' Heq Hm'. symmetry in Heq.
        destruct (is_code_inv m' rest' a b c t Hm' Heq)
          as (e1 & e2 & e3 & e4 & sfx' & _ & _ & _ & Hdrop & _ & _ & _ & _ & Hs & Hsu & ->).
        rewrite Et in Hdrop. injection Hdrop as _ _ _ _ Hu.
        destruct sfx' as [|y sfx'].
        { fold w. rewrite !length_cons, !length_app. simpl. lia. }
        simpl in Hu. injection Hu as <- _.
        apply Forall_cons in Hsu as [Hy _]. congruence.
Qed.

Lemma re_match_code_complete (s : str) :
  re_match code_re s = None → ¬ code_starts s.
Proof.
  rewrite re_match_code. intros Hnone (m & rest & -> & Hm). revert Hnone.
  destruct (m ++ rest) as [|a [|b [|c t]]] eqn:Es.
  1-3: destruct Hm as (l & w & d & sfx & -> & Hl & _);
       destruct l as [|? [|? [|? [|]]]]; discriminate.
  destruct (is_code_inv m rest a b c t Hm Es)
    as (d1 & d2 & d3 & d4 & sfx & -> & -> & -> & -> & -> & -> & -> & -> & _).
  cbn [andb]. destruct (sfx ++ rest) as [|x u]; [done|].
  by destruct (isupper x).
Qed.

(** [re.findall] scans the clause for codes as [code_scan] tells. *)
Lemma findall_code_scan fuel (s : str) :
  length s < fuel → code_scan s (findall_aux fuel code_re s).
Proof.
  revert s. induction fuel as [|fuel IH]; intros s Hlen; [lia|].
  cbn [findall_aux]. destruct (re_match code_re s) as [mo|] eqn:Em.
  - destruct (re_match_code_sound s mo Em) as (Hs & Hcode & Hlong).
    assert (7 ≤ length (m_text mo)) as H7.
    { destruct Hcode as (l & w & d & sfx & -> & Hl & _ & _ & Hd & _).
      rewrite !length_app. lia. }
    assert (length s = length (m_text mo) + length (m_rest mo)) as Hls.
    { rewrite Hs at 1. apply length_app. }
    replace (length (m_rest mo) <? length s) with true
      by (symmetry; apply Nat.ltb_lt; lia).
    rewrite Hs at 1. apply scan_take; [done | by rewrite <- Hs |].
    apply IH. lia.
  - destruct s as [|c s]; [constructor|].
    apply scan_skip; [by apply re_match_code_complete|].
    apply IH. simpl in Hlen. lia.
Qed.

Lemma re_findall_code_scan (clause : str) : code_scan clause (re_findall code_re clause).
Proof. apply findall_code_scan. lia. Qed.

Lemma is_code_nonempty (m : str) : is_code m → m ≠ [].
Proof.
  intros (l & w & d & sfx & -> & Hl & _) Hnil.
  destruct l; [discriminate | discriminate].
Qed.

(** A text has one scan only. *)
Lemma code_scan_functional (s : str) (ms1 ms2 : list str) :
  code_scan s ms1 → code_scan s ms2 → ms1 = ms2.
Proof.
  intros H1. revert ms2.
  induction H1 as [|c s ms Hno _ IH|m s ms Hm Hlong _ IH]; intros ms2 H2.
  - inversion H2 as [| |m' s' ms' Hm' _ _ Heq]; [done|].
    apply is_code_nonempty in Hm'. by destruct m'.
  - inversion H2 as [|c' s' ms' _ H2' [Hc Hs]|m' s' ms' Hm' _ _ Heq]; subst.
    + by apply IH.
    + exfalso. apply Hno. rewrite <- Heq. by exists m', s'.
  - remember (m ++ s) as t eqn:Et.
    destruct H2 as [|c' s' ms' Hno _|m' s' ms' Hm' Hlong' H2'].
    + symmetry in Et. apply app_eq_nil in Et as [-> _].
      by apply is_code_nonempty in Hm.
    + exfalso. apply Hno. rewrite Et. by exists m, s.
    + assert (length m = length m') as Hlen.
      { apply Nat.le_antisymm.
        - apply (Hlong' m s); [done | done].
        - apply (Hlong m' s'); [done | done]. }
      apply app_inj_1 in Et as [-> ->]; [|done].
      f_equal. by apply IH.
Qed.

(** C3: [parse_prerequisites] uses the clause of the first header that has
    one, in the order [PR:], [Prerequisite(s):], [Prerequisites:], letter
    case set aside; the clause is the text from the header up to the next
    period; the result is the scan of the clause for the course-code
    grammar, from the left, every occurrence kept.  On the text of the spec
    it returns [EEE 3307C] and [EEL 4750]. *)
Theorem parse_prerequisites_first_clause :
  (∀ d, parse_prerequisites d =
     match clause_after (py "PR:") d with
     | Some clause => re_findall code_re clause
     | None =>
         match clause_after (py "Prerequisite(s):") d with
         | Some clause => re_findall code_re clause
         | None =>
             match clause_after (py "Prerequisites:") d with
             | Some clause => re_findall code_re clause
             | None => []
             end
         end
     end) ∧
  (∀ clause ms, code_scan clause ms ↔ ms = re_findall code_re clause) ∧
  parse_prerequisites two_clauses_text = [py "EEE 3307C"; py "EEL 4750"] ∧
  parse_prerequisites (py "Prerequisites: EEL 4750 or EEL 4750. PR: EEE 3307C.") =
    [py "EEE 3307C"] ∧
  parse_prerequisites (py "Prerequisites: EEL 4750 or EEL 4750.") =
    [py "EEL 4750"; py "EEL 4750"].
Proof.
  split_and!.
  - intros d. unfold parse_prerequisites, pr_patterns, pr_headers.
    rewrite first_clause_headers. cbn [foldr].
    destruct (clause_after (py "PR:") d); [done|].
    destruct (clause_after (py "Prerequisite(s):") d); [done|].
    by destruct (clause_after (py "Prerequisites:") d).
  - intros clause ms. split.
    + intros H. apply (code_scan_functional clause); [done|].
      apply re_findall_code_scan.
    + intros ->. apply re_findall_code_scan.
  - by vm_compute.
  - by vm_compute.
  - by vm_compute.
Qed.

(** ** The graph builders *)

Lemma elem_of_codes_of (p : str) (cs : list course) :
  p ∈ codes_of cs ↔ p ∈ course_code <$> cs.
Proof. unfold codes_of. apply elem_of_list_to_set. Qed.

Lemma NoDup_fmap_inj {A B} (f : A → B) (l : list A) (x y : A) :
  NoDup (f <$> l) → x ∈ l → y ∈ l → f x = f y → x = y.
Proof.
  induction l as [|a l IH]; intros Hnd Hx Hy Heq; [by apply not_elem_of_nil in Hx|].
  rewrite fmap_cons in Hnd. apply NoDup_cons in Hnd as [Ha Hnd].
  apply elem_of_cons in Hx as [->|Hx]; apply elem_of_cons in Hy as [->|Hy].
  - done.
  - exfalso. apply Ha. rewrite Heq. by apply list_elem_of_fmap_2.
  - exfalso. apply Ha. rewrite <- Heq. by apply list_elem_of_fmap_2.
  - by apply IH.
Qed.

Lemma find_code (p : str) (cs : list course) :
  p ∈ course_code <$> cs →
  ∃ c, List.find (λ c', bool_decide (course_code c' = p)) cs = Some c.
Proof.
  intros (c & -> & Hc)%list_elem_of_fmap.
  destruct (List.find _ cs) as [c'|] eqn:E; [eauto|].
  apply list_elem_of_In in Hc. apply (find_none _ _ E c) in Hc.
  by rewrite bool_decide_true in Hc.
Qed.

(** The edges of [c], as pairs. *)
Lemma course_edges_pairs (codes : gset str) (c : course) :
  edge_pair <$> course_edges codes c =
    (λ p, (p, course_code c)) <$>
      filter (λ p, p ∈ codes) (parse_prerequisites (full_description c)).
Proof. unfold course_edges. rewrite <- list_fmap_compose. done. Qed.

Lemma edges_NoDup (codes : gset str) (l : list course) :
  NoDup (course_code <$> l) →
  (∀ c, c ∈ l → NoDup (parse_prerequisites (full_description c))) →
  NoDup (edge_pair <$> (l ≫= course_edges codes)).
Proof.
  intros Hcodes Hpre.
  assert (edge_pair <$> (l ≫= course_edges codes) =
          l ≫= (λ c, edge_pair <$> course_edges codes c)) as ->.
  { induction l as [|c l IH]; [done|].
    rewrite !bind_cons, fmap_app, IH; [done|..].
    - rewrite fmap_cons in Hcodes. by apply NoDup_cons in Hcodes as [_ ?].
    - intros c' Hc'. apply Hpre. by right. }
  apply NoDup_bind.
  - intros c1 c2 [p q] H1 H2. rewrite !course_edges_pairs.
    intros (p1 & [= -> ->] & _)%list_elem_of_fmap (p2 & [= _ Hq] & _)%list_elem_of_fmap.
    by apply (NoDup_fmap_inj course_code l).
  - intros c Hc. rewrite course_edges_pairs. apply NoDup_fmap_2_strong.
    + by intros p1 p2 _ _ [= ->].
    + apply NoDup_filter, Hpre, Hc.
  - by apply NoDup_fmap_1 in Hcodes.
Qed.

Section by_major.
Context (cs : list course).

Lemma add_prereq_edges c st p :
  b_edges (add_prereq cs (codes_of cs) c st p) =
    b_edges st ++
    ((λ p, Edge p (course_code c) (py "to")) <$> filter (λ p, p ∈ codes_of cs) [p]).
Proof.
  unfold add_prereq. case_bool_decide as Hp.
  - rewrite filter_cons_True by done. rewrite filter_nil.
    case_bool_decide; [destruct (List.find _ cs)|]; done.
  - rewrite filter_cons_False by done. rewrite filter_nil. simpl.
    by rewrite app_nil_r.
Qed.

Lemma add_course_edges st c :
  b_edges (add_course cs (codes_of cs) st c) =
    b_edges st ++ course_edges (codes_of cs) c.
Proof.
  unfold add_course, course_edges.
  generalize (parse_prerequisites (full_description c)) as ps. intros ps.
  revert st. induction ps as [|p ps IH]; intros st.
  { cbn [foldl]. rewrite filter_nil, fmap_nil. by rewrite app_nil_r. }
  cbn [foldl]. rewrite IH, add_prereq_edges.
  change (p :: ps) with ([p] ++ ps). rewrite filter_app, fmap_app.
  by rewrite app_assoc.
Qed.

Lemma fold_courses_edges st l :
  b_edges (foldl (add_course cs (codes_of cs)) st l) =
    b_edges st ++ (l ≫= course_edges (codes_of cs)).
Proof.
  revert st. induction l as [|c l IH]; intros st.
  { simpl. by rewrite app_nil_r. }
  cbn [foldl]. rewrite IH, add_course_edges, bind_cons. by rewrite app_assoc.
Qed.

Context (filtered_courses : list course).

Lemma add_prereq_inv c visited st p :
  graph_inv cs filtered_courses visited st →
  graph_inv cs filtered_courses (visited ++ [p]) (add_prereq cs (codes_of cs) c st p).
Proof.
  intros (extra & Hn & Hf & Hnd & Hex & Hvis). unfold add_prereq.
  case_bool_decide as Hp.
  2:{ exists extra. split_and!; try done. intros q [Hq|Hq]%elem_of_app ??; [by apply Hvis|].
      apply list_elem_of_singleton in Hq as ->. done. }
  case_bool_decide as Hfc.
  2:{ exists extra. split_and!; try done.
      intros q [Hq|Hq]%elem_of_app ? Hqf; [by apply Hvis|].
      apply list_elem_of_singleton in Hq as ->.
      rewrite Hf in Hfc.
      apply elem_of_union in Hfc as [?|Hfc]; [done|].
      by apply elem_of_list_to_set in Hfc. }
  destruct (find_code p cs) as [pc Hpc]; [by apply elem_of_codes_of|].
  rewrite Hpc. rewrite Hf in Hfc.
  apply not_elem_of_union in Hfc as [Hp0 Hpe].
  rewrite elem_of_list_to_set in Hpe.
  exists (extra ++ [prereq_node p pc]). cbn [b_nodes filtered_codes]. split_and!.
  - by rewrite Hn, app_assoc.
  - rewrite Hf. apply set_eq. intros x.
    rewrite fmap_app, !elem_of_union, elem_of_singleton, !elem_of_list_to_set,
      elem_of_app.
    simpl. rewrite list_elem_of_singleton. tauto.
  - rewrite fmap_app. apply NoDup_app. split_and!; [done| |by apply NoDup_singleton].
    intros q Hq Hq'. apply list_elem_of_singleton in Hq'. simpl in Hq'. by subst q.
  - intros n [Hin|Hin]%elem_of_app; [by apply Hex|].
    apply list_elem_of_singleton in Hin as ->. done.
  - intros q [Hq|Hq]%elem_of_app ??; rewrite fmap_app, elem_of_app.
    + left. by apply Hvis.
    + right. apply list_elem_of_singleton in Hq as ->. simpl. by left.
Qed.

Lemma add_course_inv c visited st :
  graph_inv cs filtered_courses visited st →
  graph_inv cs filtered_courses
    (visited ++ parse_prerequisites (full_description c))
    (add_course cs (codes_of cs) st c).
Proof.
  unfold add_course.
  generalize (parse_prerequisites (full_description c)) as ps. intros ps.
  revert visited st. induction ps as [|p ps IH]; intros visited st Hinv.
  { simpl. by rewrite app_nil_r. }
  cbn [foldl]. change (p :: ps) with ([p] ++ ps). rewrite app_assoc.
  by apply IH, add_prereq_inv.
Qed.

Lemma fold_courses_inv l visited st :
  graph_inv cs filtered_courses visited st →
  graph_inv cs filtered_courses (visited ++ visited_prereqs l)
    (foldl (add_course cs (codes_of cs)) st l).
Proof.
  revert visited st. induction l as [|c l IH]; intros visited st Hinv.
  { unfold visited_prereqs. simpl. by rewrite app_nil_r. }
  cbn [foldl]. unfold visited_prereqs. rewrite bind_cons, app_assoc.
  by apply IH, add_course_inv.
Qed.

Lemma graph_inv_start :
  graph_inv cs filtered_courses []
    (Builder (course_node <$> filtered_courses) [] (codes_of filtered_courses)).
Proof.
  exists []. cbn [b_nodes filtered_codes]. split_and!.
  - by rewrite app_nil_r.
  - simpl. by rewrite (right_id_L ∅ (∪)).
  - constructor.
  - intros n Hn. by apply not_elem_of_nil in Hn.
  - intros p Hp. by apply not_elem_of_nil in Hp.
Qed.
End by_major.

(** The graph of a major: its edges are those of the courses of the major,
    and its nodes satisfy the invariant for all their prerequisites. *)
Lemma graph_by_major_spec (cs : list course) (major : str) :
  edges (get_course_graph_by_major cs major) =
    search_courses_by_major cs major ≫= course_edges (codes_of cs) ∧
  ∃ st, nodes (get_course_graph_by_major cs major) = b_nodes st ∧
    graph_inv cs (search_courses_by_major cs major)
      (visited_prereqs (search_courses_by_major cs major)) st.
Proof.
  unfold get_course_graph_by_major. cbn [edges nodes]. split.
  - by rewrite fold_courses_edges.
  - eexists. split; [done|].
    apply (fold_courses_inv cs _ _ []), graph_inv_start.
Qed.

Lemma filter_none {A} (P : A → Prop) `{∀ x, Decision (P x)} (l : list A) :
  (∀ x, x ∈ l → ¬ P x) → filter P l = [].
Proof.
  induction l as [|a l IH]; intros Hl; [done|].
  rewrite filter_cons_False by (apply Hl; by left).
  apply IH. intros x Hx. apply Hl. by right.
Qed.

Lemma filter_NoDup_fmap {A B} `{EqDecision B} (f : A → B) (l : list A) (x : A) :
  NoDup (f <$> l) → x ∈ l → filter (λ y, f y = f x) l = [x].
Proof.
  induction l as [|a l IH]; intros Hnd Hx; [by apply not_elem_of_nil in Hx|].
  rewrite fmap_cons in Hnd. apply NoDup_cons in Hnd as [Ha Hnd].
  assert (∀ y, y ∈ l → f y ≠ f a) as Hne.
  { intros y Hy Heq. apply Ha. rewrite <- Heq. by apply list_elem_of_fmap_2. }
  apply elem_of_cons in Hx as [->|Hx].
  - rewrite filter_cons_True by done. f_equal. by apply filter_none.
  - rewrite filter_cons_False; [by apply IH|].
    intros Heq. by apply (Hne x Hx).
Qed.

(** C9: in the graph of a major, the source of every edge and the id of
    every node is the code of a record of the full catalog, so that a
    prerequisite code the catalog does not have yields no edge and no node;
    and a prerequisite of a course of the major that is in the catalog but
    not among the courses of the major has exactly one node, of the group
    [prerequisite], however many courses depend on it. *)
Theorem graph_by_major_prerequisites (cs : list course) (major : str) :
  (∀ e, e ∈ edges (get_course_graph_by_major cs major) →
        edge_from e ∈ course_code <$> cs) ∧
  (∀ n, n ∈ nodes (get_course_graph_by_major cs major) →
        node_id n ∈ course_code <$> cs) ∧
  (∀ p, p ∈ visited_prereqs (search_courses_by_major cs major) →
        p ∈ course_code <$> cs →
        p ∉ course_code <$> search_courses_by_major cs major →
        ∃ n, filter (λ n', node_id n' = p)
               (nodes (get_course_graph_by_major cs major)) = [n] ∧
             node_group n = py "prerequisite").
Proof.
  destruct (graph_by_major_spec cs major)
    as (Hedges & st & Hnodes & extra & Hn & _ & Hnd & Hex & Hvis).
  rewrite Hedges, Hnodes, Hn. split_and!.
  - intros e (c & He & _)%list_elem_of_bind. unfold course_edges in He.
    apply list_elem_of_fmap in He as (p & -> & Hp).
    apply list_elem_of_filter in Hp as [Hp _]. by apply elem_of_codes_of.
  - intros n [Hin|Hin]%elem_of_app.
    + apply list_elem_of_fmap in Hin as (c & -> & Hc). simpl.
      apply list_elem_of_fmap_2.
      by apply (elem_of_sublist _ _ _ Hc), search_by_major_sublist.
    + apply elem_of_codes_of. by apply Hex.
  - intros p Hp Hin Hout.
    assert (p ∈ node_id <$> extra) as (n & -> & Hnin)%list_elem_of_fmap.
    { apply Hvis; [done | by apply elem_of_codes_of |].
      by rewrite elem_of_codes_of. }
    exists n. split; [|by apply Hex]. rewrite filter_app.
    rewrite (filter_NoDup_fmap node_id extra n Hnd Hnin).
    rewrite filter_none; [done|].
    intros n' (c & -> & Hc)%list_elem_of_fmap Heq. simpl in Heq.
    apply Hout. rewrite <- Heq. by apply list_elem_of_fmap_2.
Qed.

Lemma graph_by_major_prerequisites_witness :
  py "EEL 1000" ∈ visited_prereqs (search_courses_by_major shared_prereq_catalog (py "CpE")) ∧
  py "EEL 1000" ∈ course_code <$> shared_prereq_catalog ∧
  (py "EEL 1000" ∉ course_code <$> search_courses_by_major shared_prereq_catalog (py "CpE")) ∧
  ∃ n, filter (λ n', node_id n' = py "EEL 1000")
         (nodes (get_course_graph_by_major shared_prereq_catalog (py "CpE"))) = [n] ∧
       node_group n = py "prerequisite".
Proof.
  assert (py "EEL 1000" ∈
            visited_prereqs (search_courses_by_major shared_prereq_catalog (py "CpE")))
    as H1.
  { vm_compute. left. }
  assert (py "EEL 1000" ∈ course_code <$> shared_prereq_catalog) as H2.
  { vm_compute. left. }
  assert (py "EEL 1000" ∉
            course_code <$> search_courses_by_major shared_prereq_catalog (py "CpE"))
    as H3.
  { vm_compute. intros H. repeat (apply elem_of_cons in H as [H|H]; [discriminate|]).
    by apply not_elem_of_nil in H. }
  split_and!; [exact H1 | exact H2 | exact H3 |].
  destruct (graph_by_major_prerequisites shared_prereq_catalog (py "CpE"))
    as (_ & _ & Hone).
  exact (Hone (py "EEL 1000") H1 H2 H3).
Defined.

(** C6, as the code has it: the node ids of a graph are pairwise distinct
    and no [(from, to)] pair occurs twice among its edges when the course
    codes of the catalog are pairwise distinct and no record names a
    prerequisite twice; this holds for the graph of the whole catalog and
    for the graph of each major. *)
Theorem graph_well_formed (cs : list course) :
  NoDup (course_code <$> cs) →
  (∀ c, c ∈ cs → NoDup (parse_prerequisites (full_description c))) →
  (NoDup (node_id <$> nodes (create_course_graph cs)) ∧
   NoDup (edge_pair <$> edges (create_course_graph cs))) ∧
  (∀ major,
     NoDup (node_id <$> nodes (get_course_graph_by_major cs major)) ∧
     NoDup (edge_pair <$> edges (get_course_graph_by_major cs major))).
Proof.
  intros Hcodes Hpre. split.
  - unfold create_course_graph. cbn [nodes edges]. split.
    + by rewrite <- list_fmap_compose.
    + by apply edges_NoDup.
  - intros major.
    pose proof (search_by_major_sublist cs major) as Hsub.
    assert (NoDup (course_code <$> search_courses_by_major cs major)) as Hfc.
    { apply (sublist_NoDup _ (course_code <$> cs)); [done|]. by apply fmap_sublist. }
    destruct (graph_by_major_spec cs major)
      as (Hedges & st & Hnodes & extra & Hn & _ & Hnd & Hex & _).
    rewrite Hedges, Hnodes, Hn. split.
    + rewrite fmap_app, <- list_fmap_compose. apply NoDup_app. split_and!; [done| |done].
      intros p Hp (n & -> & Hnin)%list_elem_of_fmap.
      destruct (Hex n Hnin) as (_ & _ & Hout). apply Hout.
      by apply elem_of_codes_of.
    + apply edges_NoDup; [done|]. intros c Hc. apply Hpre.
      by apply (elem_of_sublist _ _ _ Hc).
Qed.

Lemma graph_well_formed_witness :
  NoDup (course_code <$> shared_prereq_catalog) ∧
  (∀ c, c ∈ shared_prereq_catalog → NoDup (parse_prerequisites (full_description c))) ∧
  (NoDup (node_id <$> nodes (create_course_graph shared_prereq_catalog)) ∧
   NoDup (edge_pair <$> edges (create_course_graph shared_prereq_catalog))) ∧
  (∀ major,
     NoDup (node_id <$> nodes (get_course_graph_by_major shared_prereq_catalog major)) ∧
     NoDup (edge_pair <$> edges (get_course_graph_by_major shared_prereq_catalog major))).
Proof.
  assert (NoDup (course_code <$> shared_prereq_catalog)) as H1.
  { apply (bool_decide_unpack _). by vm_compute. }
  assert (∀ c, c ∈ shared_prereq_catalog →
               NoDup (parse_prerequisites (full_description c))) as H2.
  { intros c Hc. unfold shared_prereq_catalog in Hc.
    repeat (apply elem_of_cons in Hc as [->|Hc]); [..|by apply not_elem_of_nil in Hc].
    all: apply (bool_decide_unpack _); by vm_compute. }
  split; [exact H1|]. split; [exact H2|].
  exact (graph_well_formed shared_prereq_catalog H1 H2).
Defined.

(** A code listed twice gives two nodes with one id; a prerequisite named
    twice in a clause gives the same edge twice. *)
Lemma duplicates_reach_graph :
  ¬ NoDup (node_id <$> nodes (create_course_graph twice_listed_catalog)) ∧
  ¬ NoDup (edge_pair <$> edges (create_course_graph twice_named_catalog)) ∧
  ¬ NoDup (node_id <$>
             nodes (get_course_graph_by_major twice_listed_catalog (py "EE"))) ∧
  ¬ NoDup (edge_pair <$>
             edges (get_course_graph_by_major twice_named_catalog (py "EE"))).
Proof.
  split_and!; apply (bool_decide_eq_false_1 _); by vm_compute.
Qed.

(** * Further properties of the program *)

(** ** The matcher consumes a prefix of its input *)

Section consumes.
Context {T : Type}.
Implicit Types (k : @cont T) (s : str) (g : option str).

Lemma exec_consumes r s g k x :
  exec r s g k = Some x →
  ∃ m s' g', s = m ++ s' ∧ Forall (λ c, accepts r c = true) m ∧ k s' g' = Some x.
Proof.
  revert s g k x.
  induction r as [|p|r1 IH1 r2 IH2|r1 IH1 r2 IH2|r1 IH1|r1 IH1|]; intros s g k x H.
  - exists [], s, g. by split_and!.
  - destruct s as [|c s']; [done|]. simpl in H. destruct (p c) eqn:E; [|done].
    exists [c], s', g. split_and!; [done | | done]. by repeat constructor.
  - rewrite exec_cat in H.
    apply IH1 in H as (m1 & s1 & g1 & -> & Hm1 & H).
    apply IH2 in H as (m2 & s2 & g2 & -> & Hm2 & H).
    exists (m1 ++ m2), s2, g2. split_and!; [by rewrite app_assoc | | done].
    apply Forall_app. split; eapply Forall_impl; eauto; simpl;
      intros c ->; by rewrite ?orb_true_r.
  - simpl in H. apply orelse_Some in H as [H | [_ H]].
    + apply IH1 in H as (m & s' & g' & -> & Hm & H). exists m, s', g'.
      split_and!; [done | | done]. eapply Forall_impl; eauto. simpl. by intros c ->.
    + apply IH2 in H as (m & s' & g' & -> & Hm & H). exists m, s', g'.
      split_and!; [done | | done]. eapply Forall_impl; eauto. simpl.
      intros c ->. by rewrite orb_true_r.
  - simpl in H. remember (length s) as n eqn:En. clear En. revert s g H.
    induction n as [|n IHn]; intros s g H; cbn [star_loop] in H.
    { exists [], s, g. by split_and!. }
    apply orelse_Some in H as [H | [_ H]]; [|exists [], s, g; by split_and!].
    apply IH1 in H as (m1 & s1 & g1 & -> & Hm1 & H).
    destruct (length s1 <? length (m1 ++ s1)); [|done].
    apply IHn in H as (m2 & s2 & g2 & -> & Hm2 & H).
    exists (m1 ++ m2), s2, g2. split_and!; [by rewrite app_assoc | | done].
    by apply Forall_app.
  - rewrite exec_grp in H. apply IH1 in H as (m & s' & g' & -> & Hm & H).
    exists m, s', (Some (take (length (m ++ s') - length s') (m ++ s'))).
    by split_and!.
  - exists [], s, g. split_and!; [done..|]. simpl in H.
    destruct s as [|c [|]]; [done | | done]. by destruct (Ascii.eqb c "010").
Qed.
End consumes.

(** A match splits the input into the text matched and the rest. *)
Lemma re_match_split r (s : str) m :
  re_match r s = Some m →
  s = m_text m ++ m_rest m ∧ Forall (λ c, accepts r c = true) (m_text m).
Proof.
  unfold re_match. intros H.
  apply exec_consumes in H as (t & s' & g' & -> & Ht & [= <-]). simpl.
  by rewrite (take_consumed (t ++ s') t s').
Qed.

(** ** The records of a catalog *)

Lemma parse_line_records_inv (P : course → Prop) st raw :
  (∀ raw cm, is_course_line raw = true →
     P (Course (code_of_line raw) (strip raw) cm)) →
  (∀ c rest m', P c → P (Course (course_code c) (full_description c ++ rest) m')) →
  records_inv P st → records_inv P (parse_line st raw).
Proof.
  intros Hopen Hgrow Hinv. pose proof Hinv as [Hc Hcur].
  assert (Forall P (commit st)) as Hcommit.
  { unfold commit. destruct (current_course st) as [c|] eqn:Ec; [|done].
    destruct (truthy (current_majors st)); [|done].
    apply Forall_app. split; [done|]. apply Forall_singleton.
    rewrite <- (app_nil_r (full_description c)). by apply Hgrow, Hcur. }
  destruct (is_marker raw) eqn:Em.
  { rewrite parse_line_marker by done. by split. }
  destruct (is_course_line raw) eqn:Ec.
  { rewrite parse_line_course by done. split; [done|]. simpl.
    intros c [= <-]. by apply Hopen. }
  destruct (is_text_line raw) eqn:Et.
  { rewrite parse_line_text by done.
    destruct (current_course st) as [c|] eqn:Ecur; [|done].
    split; [done|]. cbn [current_course]. intros c' [= <-].
    apply (Hgrow c). by apply Hcur. }
  by rewrite parse_line_skipped.
Qed.

Lemma parse_lines_Forall (P : course → Prop) lines :
  (∀ raw cm, is_course_line raw = true →
     P (Course (code_of_line raw) (strip raw) cm)) →
  (∀ c rest m', P c → P (Course (course_code c) (full_description c ++ rest) m')) →
  Forall P (parse_lines lines).
Proof.
  intros Hopen Hgrow. unfold parse_lines.
  assert (records_inv P (foldl parse_line (Parser [] None []) lines)) as [Hc Hcur].
  { assert (records_inv P (Parser [] None [])) as H0 by (split; [constructor | done]).
    revert H0. generalize (Parser [] None []).
    induction lines as [|raw lines IH]; intros st Hst; [done|].
    simpl. by apply IH, parse_line_records_inv. }
  unfold commit. destruct (current_course _) as [c|] eqn:Ec; [|done].
  destruct (truthy _); [|done]. apply Forall_app. split; [done|].
  apply Forall_singleton. rewrite <- (app_nil_r (full_description c)).
  by apply Hgrow, Hcur.
Qed.

Lemma isupper_not_digit (c : ascii) : isupper c = true → isdigit c = false.
Proof. destruct c as [[] [] [] [] [] [] [] []]; vm_compute; congruence. Qed.

Lemma digit_val_bounds (c : ascii) : isdigit c = true → (0 ≤ digit_val c ≤ 9)%Z.
Proof.
  unfold isdigit, digit_val. rewrite andb_true_iff, !Nat.leb_le. lia.
Qed.

(** What [re.match] finds at the head of a course-code line is what the
    code pattern of the prerequisite clauses finds there; at least one
    whitespace character follows the three capitals. *)
Lemma re_match_course_line (s : str) m :
  re_match course_line_re s = Some m →
  m_group1 m = Some (m_text m) ∧
  re_match code_re s = Some (MatchObj (m_text m) None (m_rest m)) ∧
  ∃ a b c x t, s = a :: b :: c :: x :: t ∧ isspace x = true.
Proof.
  rewrite re_match_code.
  unfold re_match, course_line_re, Plus, AZ, dgt, ws, Opt. cbn [Rep].
  rewrite exec_grp, exec_cat.
  destruct s as [|a [|b [|c t]]]; try done.
  { rewrite exec_cat_chr. by destruct (isupper a). }
  { rewrite !exec_cat_chr. by destruct (isupper a), (isupper b). }
  rewrite exec_cat_chr. destruct (isupper a); [|done].
  rewrite exec_cat_chr. destruct (isupper b); [|done].
  rewrite exec_cat_chr. destruct (isupper c); [|done].
  cbn [andb]. rewrite exec_eps, exec_cat.
  destruct t as [|x t]; [done|].
  rewrite exec_cat_chr. destruct (isspace x) eqn:Ex; [|done].
  rewrite exec_star_chr. rewrite greedy_only_longest.
  2:{ intros y s' Hy. rewrite exec_cat, exec_cat_chr.
      by rewrite (isspace_not_digit y Hy). }
  cbn [drop_class]. rewrite Ex. rewrite exec_cat.
  destruct (drop_class isspace t) as [|d1 [|d2 [|d3 [|d4 u]]]]; try done.
  { rewrite exec_cat_chr. by destruct (isdigit d1). }
  { rewrite !exec_cat_chr. by destruct (isdigit d1), (isdigit d2). }
  { rewrite !exec_cat_chr. by destruct (isdigit d1), (isdigit d2), (isdigit d3). }
  rewrite exec_cat_chr. destruct (isdigit d1); [|done].
  rewrite exec_cat_chr. destruct (isdigit d2); [|done].
  rewrite exec_cat_chr. destruct (isdigit d3); [|done].
  rewrite exec_cat_chr. destruct (isdigit d4); [|done].
  cbn [andb]. rewrite exec_eps. cbn [exec].
  destruct u as [|y u]; [|destruct (isupper y)]; cbn [orelse];
    intros [= <-]; cbn [m_text m_group1 m_rest]; split_and!; eauto 10.
Qed.

(** The code a course-code line opens a record with. *)
Lemma course_line_code (raw : str) :
  is_course_line raw = true →
  is_code (code_of_line raw) ∧
  (∃ x, x ∈ code_of_line raw ∧ isspace x = true) ∧
  ∃ rest, strip raw = code_of_line raw ++ rest.
Proof.
  unfold is_course_line, code_of_line. rewrite !andb_true_iff.
  intros [_ Hm]. destruct (re_match course_line_re (strip raw)) as [m|] eqn:Em; [|done].
  destruct (re_match_course_line _ _ Em) as (Hg & Hcode & a & b & c & x & t & Hs & Hx).
  destruct (re_match_code_sound _ _ Hcode) as (Hsplit & His & _).
  cbn [m_text m_rest] in Hsplit, His. unfold group1. rewrite Hg. cbn [default].
  split_and!; [done | | by exists (m_rest m)].
  exists x. split; [|done].
  destruct His as (l & w & d & sfx & Htext & Hl & _ & _ & Hd & Hdd & _).
  destruct l as [|l1 [|l2 [|l3 [|]]]]; try discriminate.
  destruct d as [|d0 d]; [discriminate|].
  apply Forall_cons in Hdd as [Hd0 _].
  rewrite Hs, Htext in Hsplit. rewrite Htext.
  destruct w as [|y w]; simpl in Hsplit; injection Hsplit as _ _ _ Hxy _.
  - subst x. apply isspace_not_digit in Hx. congruence.
  - subst y. simpl. do 3 right. by left.
Qed.

(** The shape of every record of a catalog: a helper for what follows. *)
Lemma parsed_record_shape (lines : list str) :
  Forall (λ c, is_code (course_code c) ∧
               (∃ x, x ∈ course_code c ∧ isspace x = true) ∧
               ∃ rest, full_description c = course_code c ++ rest)
    (parse_lines lines).
Proof.
  apply parse_lines_Forall.
  - intros raw cm Hraw. by apply course_line_code.
  - intros c rest m' (Hcode & Hsp & tail & Htail). cbn [course_code full_description].
    split_and!; [done..|]. exists (tail ++ rest). by rewrite Htail, app_assoc.
Qed.

(** X1: every record of a parsed catalog has a code of the course-code
    grammar with whitespace between the capitals and the digits, and its
    description begins with that code. *)
Theorem parsed_record_code (text : str) (c : course) :
  c ∈ parse_courses text →
  is_code (course_code c) ∧
  (∃ x, x ∈ course_code c ∧ isspace x = true) ∧
  ∃ rest, full_description c = course_code c ++ rest.
Proof.
  intros Hc. pose proof (parsed_record_shape (split_lines text)) as H.
  rewrite Forall_forall in H. by apply H.
Qed.

Lemma parsed_record_code_witness :
  sample_course ∈ parse_courses catalog_sample ∧
  is_code (course_code sample_course) ∧
  (∃ x, x ∈ course_code sample_course ∧ isspace x = true) ∧
  ∃ rest, full_description sample_course = course_code sample_course ++ rest.
Proof.
  assert (sample_course ∈ parse_courses catalog_sample) as H.
  { vm_compute. left. }
  split; [exact H|]. exact (parsed_record_code catalog_sample sample_course H).
Defined.

Lemma int_four_digits (d : str) :
  length d = 4 → Forall (λ c, isdigit c = true) d → (0 ≤ int d ≤ 9999)%Z.
Proof.
  intros Hlen Hd. destruct d as [|d1 [|d2 [|d3 [|d4 [|]]]]]; try discriminate.
  repeat (apply Forall_cons in Hd as [?H%digit_val_bounds Hd]).
  unfold int. simpl. lia.
Qed.

Lemma is_code_number (m : str) :
  is_code m →
  ∃ d, length d = 4 ∧ Forall (λ c, isdigit c = true) d ∧ course_number m = Some (int d).
Proof.
  intros (l & w & d & sfx & -> & _ & Hl & Hw & Hd & Hdd & _).
  exists d. split_and!; [done..|]. rewrite app_assoc.
  apply course_number_digits; [|done..]. apply Forall_app. split.
  - eapply Forall_impl; [exact Hl|]. apply isupper_not_digit.
  - eapply Forall_impl; [exact Hw|]. apply isspace_not_digit.
Qed.

(** X2: the number of every record of a parsed catalog is found and lies
    between 0 and 9999; the graph level of the record is that number, never
    the fallback 4000 of the builders. *)
Theorem parsed_course_number (text : str) (c : course) :
  c ∈ parse_courses text →
  ∃ n, course_number (course_code c) = Some n ∧ (0 ≤ n ≤ 9999)%Z ∧
       node_level (course_node c) = n ∧
       (is_graduate_course c = true ↔
        (5000 ≤ n)%Z ∨
        existsb (λ indicator, contains indicator (lower (full_description c)))
          grad_indicators = true).
Proof.
  intros Hc. pose proof (parsed_record_shape (split_lines text)) as H.
  rewrite Forall_forall in H. destruct (H c Hc) as (Hcode & _).
  destruct (is_code_number _ Hcode) as (d & Hlen & Hd & Hn).
  exists (int d). split; [done|]. split; [by apply int_four_digits|]. split.
  - cbn [course_node node_level]. unfold level_of. by rewrite Hn.
  - unfold is_graduate_course. rewrite Hn. case_bool_decide as Hge.
    + split; [by left | done].
    + split; [by right | by intros [?|?]].
Qed.

Lemma parsed_course_number_witness :
  sample_course ∈ parse_courses catalog_sample ∧
  ∃ n, course_number (course_code sample_course) = Some n ∧ (0 ≤ n ≤ 9999)%Z ∧
       node_level (course_node sample_course) = n ∧
       (is_graduate_course sample_course = true ↔
        (5000 ≤ n)%Z ∨
        existsb (λ indicator,
                   contains indicator (lower (full_description sample_course)))
          grad_indicators = true).
Proof.
  assert (sample_course ∈ parse_courses catalog_sample) as H.
  { vm_compute. left. }
  split; [exact H|]. exact (parsed_course_number catalog_sample sample_course H).
Defined.

(** Lines that open no course leave a loop without an open record as it
    is, the marker apart. *)
Lemma run_no_course done cm lines :
  Forall (λ raw, is_course_line raw = false) lines →
  run (Parser done None cm) lines = Parser done None (majors_after cm lines).
Proof.
  intros H. revert cm. induction H as [|raw lines Hraw _ IH]; intros cm; [done|].
  unfold run, majors_after in *. simpl.
  destruct (is_marker raw) eqn:Em.
  { rewrite parse_line_marker by done. apply IH. }
  destruct (is_text_line raw) eqn:Et.
  { rewrite parse_line_text by done. apply IH. }
  rewrite parse_line_skipped by done. apply IH.
Qed.

(** X3: a text without a major-marker line, or without a course-code line,
    gives the empty catalog; so does the empty text. *)
Theorem parse_courses_empty (text : str) :
  Forall (λ raw, is_marker raw = false) (split_lines text) ∨
  Forall (λ raw, is_course_line raw = false) (split_lines text) →
  parse_courses text = [].
Proof.
  intros [H|H]; unfold parse_courses; fold (split_lines text).
  - by apply parse_lines_no_marker.
  - unfold parse_lines. fold (run (Parser [] None []) (split_lines text)).
    by rewrite run_no_course.
Qed.

Lemma parse_courses_empty_witness :
  (Forall (λ raw, is_marker raw = false) (split_lines (py "EEL 4750 Signals
EEL 4751 Systems")) ∨
   Forall (λ raw, is_course_line raw = false) (split_lines (py "EEL 4750 Signals
EEL 4751 Systems"))) ∧
  parse_courses (py "EEL 4750 Signals
EEL 4751 Systems") = [].
Proof.
  assert (Forall (λ raw, is_marker raw = false) (split_lines (py "EEL 4750 Signals
EEL 4751 Systems"))) as H.
  { vm_compute. by repeat constructor. }
  split; [by left|]. apply parse_courses_empty. by left.
Defined.

(** ** The order of the catalog *)

Lemma commit_opened st : course_code <$> commit st `sublist_of` opened st.
Proof.
  unfold commit, opened. destruct (current_course st) as [c|]; [|by rewrite app_nil_r].
  destruct (truthy (current_majors st)).
  - by rewrite fmap_app.
  - apply sublist_inserts_r. done.
Qed.

Lemma commit_opened_marked st :
  truthy (current_majors st) = true → course_code <$> commit st = opened st.
Proof.
  intros H. unfold commit, opened. rewrite H.
  destruct (current_course st) as [c|]; [by rewrite fmap_app | by rewrite app_nil_r].
Qed.

(** The codes of the course-code lines among [lines], in their order. *)
Lemma opened_run st lines :
  opened (run st lines)
    `sublist_of` opened st ++ (code_of_line <$> filter (λ raw, is_course_line raw = true) lines).
Proof.
  revert st. induction lines as [|raw lines IH]; intros st.
  { rewrite filter_nil, fmap_nil, app_nil_r. done. }
  unfold run in *. cbn [foldl]. etrans; [apply IH|].
  destruct (is_course_line raw) eqn:Ec.
  - rewrite filter_cons_True by done. rewrite parse_line_course by done.
    rewrite fmap_cons, cons_middle, app_assoc.
    apply sublist_app; [|done]. unfold opened at 1. cbn [courses current_course course_code].
    apply sublist_app; [apply commit_opened | done].
  - rewrite filter_cons_False by congruence. apply sublist_app; [|done].
    destruct (is_marker raw) eqn:Em.
    { by rewrite parse_line_marker. }
    destruct (is_text_line raw) eqn:Et.
    { rewrite parse_line_text by done.
      destruct (current_course st) as [c|] eqn:Ecur; [|done].
      unfold opened. cbn [courses current_course course_code]. by rewrite Ecur. }
    by rewrite parse_line_skipped.
Qed.

Lemma opened_run_marked st lines :
  truthy (current_majors st) = true →
  opened (run st lines) =
    opened st ++ (code_of_line <$> filter (λ raw, is_course_line raw = true) lines) ∧
  truthy (current_majors (run st lines)) = true.
Proof.
  revert st. induction lines as [|raw lines IH]; intros st Hcm.
  { rewrite filter_nil, fmap_nil, app_nil_r. done. }
  unfold run in *. cbn [foldl].
  destruct (is_course_line raw) eqn:Ec.
  - rewrite filter_cons_True by done. rewrite parse_line_course by done.
    destruct (IH (Parser (commit st)
                    (Some (Course (code_of_line raw) (strip raw) (current_majors st)))
                    (current_majors st))) as [-> ->]; [done|].
    split; [|done]. unfold opened at 1. cbn [courses current_course course_code].
    rewrite commit_opened_marked by done. rewrite fmap_cons.
    by rewrite <- !app_assoc.
  - rewrite filter_cons_False by congruence.
    destruct (is_marker raw) eqn:Em.
    { rewrite parse_line_marker by done.
      destruct (IH (Parser (courses st) (current_course st) (strip raw))) as [-> ->];
        [|done]. by apply valid_majors_truthy, marker_truthy. }
    destruct (is_text_line raw) eqn:Et.
    { rewrite parse_line_text by done. destruct (current_course st) as [c|] eqn:Ecur.
      - destruct (IH (Parser (courses st)
                        (Some (Course (course_code c)
                                 (full_description c ++ py " " ++ strip raw) (majors c)))
                        (current_majors st))) as [-> ->]; [done|].
        split; [|done]. unfold opened. cbn [courses current_course course_code].
        by rewrite Ecur.
      - by apply IH. }
    rewrite parse_line_skipped by done. by apply IH.
Qed.

(** X4: the codes of a catalog are codes of course-code lines of the text,
    in the order of the text; when a major marker comes before the first
    course-code line, the catalog has one record for each course-code line
    of the text, in that order. *)
Theorem parse_courses_order (text : str) :
  course_code <$> parse_courses text
    `sublist_of` code_of_line <$> filter (λ raw, is_course_line raw = true) (split_lines text) ∧
  (∀ before mk rest,
     split_lines text = before ++ mk :: rest →
     is_marker mk = true →
     Forall (λ raw, is_course_line raw = false) before →
     course_code <$> parse_courses text =
       code_of_line <$> filter (λ raw, is_course_line raw = true) (split_lines text)).
Proof.
  unfold parse_courses. fold (split_lines text). split.
  - unfold parse_lines. fold (run (Parser [] None []) (split_lines text)).
    etrans; [apply commit_opened|]. apply (opened_run (Parser [] None [])).
  - intros before mk rest -> Hmk Hbefore. unfold parse_lines.
    fold (run (Parser [] None []) (before ++ mk :: rest)).
    rewrite run_app, run_no_course by done.
    change (mk :: rest) with ([mk] ++ rest). rewrite run_app.
    unfold run at 2. cbn [foldl]. rewrite parse_line_marker by done.
    cbn [courses current_course].
    destruct (opened_run_marked (Parser [] None (strip mk)) rest) as [Ho Hcm].
    { by apply valid_majors_truthy, marker_truthy. }
    rewrite commit_opened_marked, Ho by done.
    rewrite !filter_app, (filter_cons_False _ mk).
    2:{ destruct (line_kinds mk) as (H & _). destruct (H Hmk) as [-> _]. done. }
    rewrite filter_nil.
    assert (filter (λ raw, is_course_line raw = true) before = []) as ->; [|done].
    induction Hbefore as [|raw l Hraw _ IH]; [done|].
    by rewrite filter_cons_False by congruence.
Qed.

Lemma parse_courses_order_witness :
  split_lines marked_catalog_text =
    [] ++ py "EE, CpE" ::
      [py "EEL 4750 Digital Signal Processing."; py "PR: EEL 3123C."; py "CpE";
       py "EEL 4768C Computer Architecture. PR: EEL 3801C."; py "Last Updated 2025";
       py "EEL 5513 DSP Applications."] ∧
  course_code <$> parse_courses marked_catalog_text =
    code_of_line <$>
      filter (λ raw, is_course_line raw = true) (split_lines marked_catalog_text) ∧
  course_code <$> parse_courses marked_catalog_text =
    [py "EEL 4750"; py "EEL 4768C"; py "EEL 5513"].
Proof.
  assert (split_lines marked_catalog_text =
    [] ++ py "EE, CpE" ::
      [py "EEL 4750 Digital Signal Processing."; py "PR: EEL 3123C."; py "CpE";
       py "EEL 4768C Computer Architecture. PR: EEL 3801C."; py "Last Updated 2025";
       py "EEL 5513 DSP Applications."]) as H.
  { by vm_compute. }
  split; [exact H|]. split; [|by vm_compute].
  destruct (parse_courses_order marked_catalog_text) as [_ Heq].
  apply (Heq _ _ _ H); [by vm_compute | constructor].
Defined.

(** ** Level and major filters, and the report *)

Lemma filter_all {A} (P : A → Prop) `{∀ x, Decision (P x)} (l : list A) :
  (∀ x, P x) → filter P l = l.
Proof.
  intros HP. induction l as [|a l IH]; [done|].
  by rewrite filter_cons_True, IH.
Qed.

Lemma filter_sublist_mono {A} (P Q : A → Prop)
    `{∀ x, Decision (P x)} `{∀ x, Decision (Q x)} (l : list A) :
  (∀ x, P x → Q x) → filter P l `sublist_of` filter Q l.
Proof.
  intros HPQ. induction l as [|a l IH]; [done|].
  destruct (decide (P a)) as [Ha|Ha].
  - rewrite !filter_cons_True by auto. by apply sublist_skip.
  - rewrite (filter_cons_False P) by done. destruct (decide (Q a)).
    + rewrite filter_cons_True by done. by apply sublist_cons.
    + by rewrite filter_cons_False.
Qed.

Lemma major_passes_contains (m : str) (c : course) :
  major_passes (Some m) c ↔ contains m (majors c).
Proof.
  unfold major_passes. destruct m as [|x m]; [|done]. simpl.
  split; [|done]. intros _. by destruct (majors c).
Qed.

(** X5: the level filter and the search by major commute, and filtering by
    major inside [get_eligible_courses] gives the report of the courses that
    [search_courses_by_major] returns. *)
Theorem level_and_major_filters_commute (cs : list course) (major : str)
    (academic_level : str) (completed_courses : list str) :
  search_courses_by_major (filter_by_academic_level cs academic_level) major =
    filter_by_academic_level (search_courses_by_major cs major) academic_level ∧
  get_eligible_courses cs completed_courses (Some major) academic_level =
    get_eligible_courses (search_courses_by_major cs major) completed_courses None
      academic_level.
Proof.
  assert (search_courses_by_major (filter_by_academic_level cs academic_level) major =
    filter_by_academic_level (search_courses_by_major cs major) academic_level) as Hcomm.
  { unfold filter_by_academic_level, search_courses_by_major.
    repeat case_bool_decide; try done.
    rewrite !list_filter_filter. apply list_filter_iff. tauto. }
  split; [done|]. unfold get_eligible_courses. f_equal.
  rewrite (filter_all (λ c, major_passes None c)) by done.
  rewrite <- Hcomm. unfold search_courses_by_major.
  apply list_filter_iff. intros c. apply major_passes_contains.
Qed.

(** X6: completing more courses never adds a missing prerequisite: when
    every entry of [completed] is met by [completed'], the missing
    prerequisites under [completed'] are among those under [completed], in
    the same order, and a record that was met stays met; lists that meet
    each other give the same report entry. *)
Theorem eligibility_monotone (completed completed' : list str) (c : course) :
  (∀ e, e ∈ completed → met_by completed' e) →
  missing_prereqs (eligibility_entry completed' c)
    `sublist_of` missing_prereqs (eligibility_entry completed c) ∧
  (prereqs_met (eligibility_entry completed c) = true →
   prereqs_met (eligibility_entry completed' c) = true) ∧
  ((∀ e, e ∈ completed' → met_by completed e) →
   eligibility_entry completed' c = eligibility_entry completed c).
Proof.
  intros Hsub.
  assert (∀ l l' : list str, (∀ e, e ∈ l → met_by l' e) →
            ∀ p, met_by l p → met_by l' p) as Hmet.
  { intros l l' Hl p Hp. unfold met_by in *. rewrite Exists_exists in Hp.
    destruct Hp as (e & He & Heq). specialize (Hl e He).
    rewrite Exists_exists in Hl. destruct Hl as (e' & He' & Heq').
    rewrite Exists_exists. exists e'. split; [done | congruence]. }
  rewrite !eligibility_entry_spec. cbn [missing_prereqs prereqs_met].
  rewrite !missing_prereqs_of_filter. split_and!.
  - apply filter_sublist_mono. intros p Hp Hp'. apply Hp. by apply (Hmet completed).
  - rewrite !bool_decide_eq_true. intros Hnil.
    pose proof (filter_sublist_mono (λ p, ¬ met_by completed' p)
                  (λ p, ¬ met_by completed p)
                  (parse_prerequisites (full_description c))) as Hs.
    rewrite Hnil in Hs. apply sublist_nil_r, Hs.
    intros p Hp Hp'. apply Hp. by apply (Hmet completed).
  - intros Hsup.
    assert (filter (λ p, ¬ met_by completed' p) (parse_prerequisites (full_description c)) =
            filter (λ p, ¬ met_by completed p) (parse_prerequisites (full_description c)))
      as ->; [|done].
    apply list_filter_iff. intros p. split; intros Hp Hp'; apply Hp.
    + by apply (Hmet completed).
    + by apply (Hmet completed').
Qed.

Lemma eligibility_monotone_witness :
  (∀ e, e ∈ [py "EEL 3801C"] → met_by [py "eel 9999"; py "eel  3801c"] e) ∧
  missing_prereqs (eligibility_entry [py "eel 9999"; py "eel  3801c"] dsp_course)
    `sublist_of` missing_prereqs (eligibility_entry [py "EEL 3801C"] dsp_course) ∧
  (prereqs_met (eligibility_entry [py "EEL 3801C"] dsp_course) = true →
   prereqs_met (eligibility_entry [py "eel 9999"; py "eel  3801c"] dsp_course) = true) ∧
  ((∀ e, e ∈ [py "eel 9999"; py "eel  3801c"] → met_by [py "EEL 3801C"] e) →
   eligibility_entry [py "eel 9999"; py "eel  3801c"] dsp_course =
     eligibility_entry [py "EEL 3801C"] dsp_course).
Proof.
  assert (∀ e, e ∈ [py "EEL 3801C"] → met_by [py "eel 9999"; py "eel  3801c"] e) as H.
  { intros e ->%list_elem_of_singleton. apply (bool_decide_unpack _). by vm_compute. }
  split; [exact H|].
  exact (eligibility_monotone [py "EEL 3801C"] [py "eel 9999"; py "eel  3801c"]
           dsp_course H).
Defined.

(** X7: the report has one entry for each course that passes the level
    filter, in catalog order, with the classifier's verdict in
    [is_graduate]: under the level [undergraduate], in any letter case, no
    entry is a graduate course; under any other level, nothing is left
    out. *)
Theorem eligible_levels (cs : list course) (completed_courses : list str)
    (academic_level : str) :
  info_course <$> get_eligible_courses cs completed_courses None academic_level =
    (if bool_decide (lower academic_level = py "undergraduate")
     then filter (λ c, is_graduate_course c = false) cs
     else cs) ∧
  Forall (λ e, is_graduate e = is_graduate_course (info_course e))
    (get_eligible_courses cs completed_courses None academic_level) ∧
  (lower academic_level = py "undergraduate" →
   Forall (λ e, is_graduate e = false)
     (get_eligible_courses cs completed_courses None academic_level)).
Proof.
  unfold get_eligible_courses.
  rewrite (filter_all (λ c, major_passes None c)) by done.
  assert (∀ l : list course,
            info_course <$> (eligibility_entry completed_courses <$> l) = l) as Hinfo.
  { intros l. induction l as [|c l IH]; [done|].
    rewrite !fmap_cons, IH. by rewrite eligibility_entry_spec. }
  split_and!.
  - rewrite Hinfo. unfold filter_by_academic_level.
    case_bool_decide as Hg; case_bool_decide as Hu; try done.
    + rewrite Hg in Hu. discriminate.
    + apply list_filter_iff. intros c. by destruct (is_graduate_course c).
  - apply Forall_fmap, Forall_forall. intros c _. unfold compose.
    by rewrite eligibility_entry_spec.
  - intros Hu. apply Forall_fmap, Forall_forall. intros c Hc. unfold compose.
    rewrite eligibility_entry_spec. cbn [is_graduate].
    unfold filter_by_academic_level in Hc. rewrite Hu in Hc.
    rewrite bool_decide_false in Hc by done. rewrite bool_decide_true in Hc by done.
    apply list_elem_of_filter in Hc as [Hc _]. by destruct (is_graduate_course c).
Qed.

Lemma eligible_levels_witness :
  lower (py "Undergraduate") = py "undergraduate" ∧
  Forall (λ e, is_graduate e = false)
    (get_eligible_courses (parse_courses catalog_sample) [py "EEL 3123C"] None
       (py "Undergraduate")) ∧
  info_course <$> get_eligible_courses (parse_courses catalog_sample) [py "EEL 3123C"]
    None (py "Undergraduate") = [sample_course].
Proof.
  assert (lower (py "Undergraduate") = py "undergraduate") as H by (by vm_compute).
  split; [exact H|]. split; [|by vm_compute].
  destruct (eligible_levels (parse_courses catalog_sample) [py "EEL 3123C"]
              (py "Undergraduate")) as (_ & _ & Hu).
  exact (Hu H).
Defined.

(** ** Normal forms *)

Lemma isspace_toupper (c : ascii) : isspace (toupper c) = isspace c.
Proof. by destruct c as [[] [] [] [] [] [] [] []]. Qed.

Lemma toupper_idem (c : ascii) : toupper (toupper c) = toupper c.
Proof. by destruct c as [[] [] [] [] [] [] [] []]. Qed.

Lemma upper_idem (s : str) : upper (upper s) = upper s.
Proof.
  unfold upper. rewrite <- list_fmap_compose. apply list_fmap_ext.
  intros _ c _. apply toupper_idem.
Qed.

Lemma upper_lstrip (s : str) : lstrip (upper s) = upper (lstrip s).
Proof.
  induction s as [|c s IH]; [done|]. cbn [upper fmap list_fmap lstrip].
  rewrite isspace_toupper. by destruct (isspace c).
Qed.

Lemma upper_rev (s : str) : rev (upper s) = upper (rev s).
Proof.
  unfold upper. induction s as [|c s IH]; [done|].
  rewrite fmap_cons. cbn [rev]. by rewrite fmap_app, IH.
Qed.

Lemma upper_strip (s : str) : strip (upper s) = upper (strip s).
Proof.
  unfold strip, rstrip. by rewrite upper_lstrip, upper_rev, upper_lstrip, upper_rev.
Qed.

Lemma upper_collapse b (s : str) :
  collapse_from b (upper s) = upper (collapse_from b s).
Proof.
  revert b. induction s as [|c s IH]; intros b; [done|].
  cbn [upper fmap list_fmap collapse_from]. rewrite isspace_toupper.
  destruct (isspace c), b; cbn [fmap list_fmap]; by rewrite <- ?IH.
Qed.

Lemma lstrip_head (s : str) :
  match lstrip s with c :: _ => isspace c = false | [] => True end.
Proof. rewrite lstrip_drop_class. apply drop_class_head. Qed.

Lemma lstrip_idem (s : str) : lstrip (lstrip s) = lstrip s.
Proof.
  pose proof (lstrip_head s) as H. destruct (lstrip s) as [|c t]; [done|].
  simpl. by rewrite H.
Qed.

Lemma lstrip_fixed (s : str) :
  lstrip s = s ↔ match s with c :: _ => isspace c = false | [] => True end.
Proof.
  split.
  - intros H. rewrite <- H. apply lstrip_head.
  - destruct s as [|c s]; [done|]. simpl. by intros ->.
Qed.

Lemma strip_trimmed (s : str) : trimmed (strip s).
Proof.
  assert (lstrip (rev (strip s)) = rev (strip s)) as Hr.
  { unfold strip, rstrip. by rewrite rev_involutive, lstrip_idem. }
  split; [|done]. apply lstrip_fixed.
  pose proof (lstrip_head s) as Hh. unfold strip, rstrip in *.
  destruct (lstrip s) as [|c t]; [done|].
  assert (∀ a, ∃ a', lstrip (a ++ [c]) = a' ++ [c]) as Hsnoc.
  { induction a as [|x a [a' IH]]; simpl; [by exists []; rewrite Hh|].
    destruct (isspace x); eauto. by exists (x :: a). }
  cbn [rev]. destruct (Hsnoc (rev t)) as [a' ->].
  rewrite rev_app_distr. done.
Qed.

Lemma trimmed_strip (s : str) : trimmed s → strip s = s.
Proof.
  intros [Hl Hr]. unfold strip, rstrip. by rewrite Hl, Hr, rev_involutive.
Qed.

Lemma strip_idem (s : str) : strip (strip s) = strip s.
Proof. apply trimmed_strip, strip_trimmed. Qed.

Lemma collapse_idem (s : str) :
  collapse_from false (collapse_from false s) = collapse_from false s.
Proof.
  assert (∀ b, collapse_from false (collapse_from b s) = collapse_from b s ∧
               collapse_from true (collapse_from true s) = collapse_from true s) as H.
  { induction s as [|c s IH]; intros b; [done|].
    destruct (IH true) as [IHt IHtt]. destruct (IH false) as [IHf _].
    cbn [collapse_from]. destruct (isspace c) eqn:Ec.
    - split; [|done]. destruct b; [done|].
      cbn [collapse_from]. rewrite isspace_space. by f_equal.
    - cbn [collapse_from]. rewrite Ec. split; by f_equal. }
  apply (H false).
Qed.

Lemma collapse_snoc b (a : str) (c : ascii) :
  isspace c = false → collapse_from b (a ++ [c]) = collapse_from b a ++ [c].
Proof.
  intros Hc. revert b. induction a as [|x a IH]; intros b; simpl.
  - by rewrite Hc.
  - destruct (isspace x), b; simpl; by rewrite IH.
Qed.

Lemma collapse_trimmed (s : str) : trimmed s → trimmed (collapse_whitespace s).
Proof.
  unfold trimmed, collapse_whitespace. rewrite !lstrip_fixed. intros [Hl Hr]. split.
  - destruct s as [|c s]; [done|]. simpl. by rewrite Hl.
  - destruct (rev s) as [|c t] eqn:Es.
    + apply (f_equal (@rev ascii)) in Es. rewrite rev_involutive in Es. by subst s.
    + apply (f_equal (@rev ascii)) in Es. rewrite rev_involutive in Es. subst s.
      cbn [rev]. rewrite collapse_snoc by done. by rewrite rev_app_distr.
Qed.

(** The code's normal form is idempotent. *)
Lemma normal_form_idem (s : str) : normal_form (normal_form s) = normal_form s.
Proof.
  unfold normal_form. rewrite !normalized_collapse. unfold collapse_whitespace.
  rewrite upper_strip, upper_collapse, upper_idem. f_equal.
  rewrite (trimmed_strip (collapse_from false (strip s))).
  - apply collapse_idem.
  - apply collapse_trimmed, strip_trimmed.
Qed.

Lemma normal_form_stripped (s : str) :
  re_sub (Plus ws) (py " ") (upper (strip s)) = normal_form s.
Proof.
  unfold normal_form, re_sub. rewrite sub_aux_ws_plus by lia.
  rewrite normalized_collapse. unfold collapse_whitespace. apply upper_collapse.
Qed.

(** ** input_completed_courses *)

(** What the validation pattern accepts: a code, up to a final newline. *)
Lemma re_match_valid_code (u : str) :
  matched (re_match valid_code_re u) = true →
  ∃ m rest, u = m ++ rest ∧ is_code m ∧ (rest = [] ∨ rest = ["010"%char]).
Proof.
  unfold re_match, valid_code_re, AZ, dgt, ws, Opt. cbn [Rep]. rewrite exec_cat.
  destruct u as [|a [|b [|c t]]]; try done.
  { rewrite exec_cat_chr. by destruct (isupper a). }
  { rewrite !exec_cat_chr. by destruct (isupper a), (isupper b). }
  rewrite exec_cat_chr. destruct (isupper a) eqn:Ea; [|done].
  rewrite exec_cat_chr. destruct (isupper b) eqn:Eb; [|done].
  rewrite exec_cat_chr. destruct (isupper c) eqn:Ec; [|done].
  rewrite exec_eps, exec_cat, exec_star_chr.
  rewrite greedy_only_longest.
  2:{ intros x s' Hx. rewrite exec_cat, exec_cat_chr.
      by rewrite (isspace_not_digit x Hx). }
  rewrite exec_cat. pose proof (take_drop_class isspace t) as Ht.
  pose proof (take_class_Forall isspace t) as Hw.
  destruct (drop_class isspace t) as [|d1 [|d2 [|d3 [|d4 v]]]]; try done.
  { rewrite exec_cat_chr. by destruct (isdigit d1). }
  { rewrite !exec_cat_chr. by destruct (isdigit d1), (isdigit d2). }
  { rewrite !exec_cat_chr. by destruct (isdigit d1), (isdigit d2), (isdigit d3). }
  rewrite exec_cat_chr. destruct (isdigit d1) eqn:E1; [|done].
  rewrite exec_cat_chr. destruct (isdigit d2) eqn:E2; [|done].
  rewrite exec_cat_chr. destruct (isdigit d3) eqn:E3; [|done].
  rewrite exec_cat_chr. destruct (isdigit d4) eqn:E4; [|done].
  rewrite exec_eps. intros Hm.
  assert (∀ sfx rest, length sfx ≤ 1 → Forall (λ x, isupper x = true) sfx →
            v = sfx ++ rest → rest = [] ∨ rest = ["010"%char] →
            ∃ m rest, a :: b :: c :: t = m ++ rest ∧ is_code m ∧
                      (rest = [] ∨ rest = ["010"%char])) as Hfin.
  { intros sfx rest Hlen Hsfx -> Hrest.
    exists (a :: b :: c :: take_class isspace t ++ d1 :: d2 :: d3 :: d4 :: sfx), rest.
    split_and!; [|by apply is_code_intro|done].
    rewrite <- Ht at 1. simpl. by rewrite <- !app_assoc. }
  destruct v as [|x [|y [|z v]]].
  - by apply (Hfin [] []); [simpl; lia | | | left].
  - destruct (isupper x) eqn:Ex.
    + apply (Hfin [x] []); [simpl; lia | by repeat constructor | done | by left].
    + apply (Hfin [] [x]); [simpl; lia | done | done |]. right.
      cbn in Hm. rewrite Ex in Hm. cbn in Hm.
      destruct (Ascii.eqb x "010") eqn:E; [|done]. by apply Ascii.eqb_eq in E as ->.
  - cbn in Hm. destruct (isupper x) eqn:Ex; [|done]. cbn in Hm.
    destruct (Ascii.eqb y "010") eqn:E; [|done]. apply Ascii.eqb_eq in E as ->.
    apply (Hfin [x] ["010"%char]); [simpl; lia | by repeat constructor | done | by right].
  - cbn in Hm. by destruct (isupper x).
Qed.

Lemma trimmed_last (m : str) (c : ascii) : trimmed (m ++ [c]) → isspace c = false.
Proof.
  intros [_ Hr]. rewrite rev_app_distr in Hr. simpl in Hr.
  destruct (isspace c) eqn:E; [|done].
  pose proof (drop_class_length isspace (rev m)) as Hlen.
  rewrite <- lstrip_drop_class, Hr in Hlen. simpl in Hlen. lia.
Qed.

Lemma collapse_app_visible (l t : str) :
  Forall (λ c, isspace c = false) l →
  collapse_from false (l ++ t) = l ++ collapse_from false t.
Proof. induction 1 as [|c l H _ IH]; simpl; [done|]. by rewrite H, IH. Qed.

Lemma isupper_not_space (c : ascii) : isupper c = true → isspace c = false.
Proof. destruct c as [[] [] [] [] [] [] [] []]; vm_compute; congruence. Qed.

Lemma isdigit_not_space (c : ascii) : isdigit c = true → isspace c = false.
Proof. destruct c as [[] [] [] [] [] [] [] []]; vm_compute; congruence. Qed.

(** Collapsing the whitespace of a code gives a code. *)
Lemma is_code_collapse (u : str) : is_code u → is_code (collapse_whitespace u).
Proof.
  intros (l & w & d & sfx & -> & Hl & Hlu & Hw & Hd & Hdd & Hs & Hsu).
  assert (Forall (λ c, isspace c = false) (d ++ sfx)) as Hvis.
  { apply Forall_app. split; eapply Forall_impl; eauto;
      [apply isdigit_not_space | apply isupper_not_space]. }
  pose proof (collapse_no_space (d ++ sfx) Hvis) as Hds.
  unfold collapse_whitespace in *. rewrite collapse_app_visible.
  2:{ eapply Forall_impl; [exact Hlu|]. apply isupper_not_space. }
  destruct w as [|y w].
  - simpl. rewrite Hds. exists l, [], d, sfx. by split_and!.
  - apply Forall_cons in Hw as [Hy Hw]. simpl. rewrite Hy.
    rewrite collapse_from_run, drop_class_app by done.
    rewrite drop_class_none by done. rewrite Hds.
    exists l, [" "%char], d, sfx. split_and!; try done. by repeat constructor.
Qed.

(** An answer the loop stores, and what it stores for it. *)
Lemma accepted_answer (raw : str) :
  matched (re_match valid_code_re (upper (strip raw))) = true →
  is_code (normal_form raw) ∧ normal_form (normal_form raw) = normal_form raw.
Proof.
  intros Hm. split; [|apply normal_form_idem].
  apply re_match_valid_code in Hm as (m & rest & Hu & Hcode & Hrest).
  assert (trimmed (upper (strip raw))) as Htrim.
  { rewrite <- upper_strip. apply strip_trimmed. }
  assert (upper (strip raw) = m) as Hum.
  { destruct Hrest as [-> | ->]; [by rewrite app_nil_r in Hu|].
    rewrite Hu in Htrim. by apply trimmed_last in Htrim. }
  rewrite <- normal_form_stripped. unfold re_sub. rewrite sub_aux_ws_plus by lia.
  rewrite Hum. by apply is_code_collapse.
Qed.

Lemma input_completed_courses_from_inv (completed inputs result : list str) :
  input_completed_courses_from completed inputs = Some result →
  NoDup completed ∧ Forall (λ e, is_code e ∧ normal_form e = e) completed →
  NoDup result ∧ Forall (λ e, is_code e ∧ normal_form e = e) result.
Proof.
  revert completed. induction inputs as [|raw inputs IH]; intros completed; [done|].
  cbn [input_completed_courses_from].
  case_bool_decide as Hd; [by intros [= <-]|].
  case_bool_decide as Hc; [intros Hr _; apply (IH [] Hr); by split; constructor|].
  case_bool_decide as He; [apply IH|].
  destruct (matched _) eqn:Em; [|apply IH].
  case_bool_decide as Hin; [|apply IH].
  intros Hr [Hnd Hall]. apply (IH _ Hr). rewrite normal_form_stripped in *. split.
  - apply NoDup_app. split_and!; [done | | apply NoDup_singleton].
    intros e Hmem ->%list_elem_of_singleton. done.
  - apply Forall_app. split; [done|]. apply Forall_singleton.
    by apply accepted_answer.
Qed.

(** X8: the list that [input_completed_courses] returns has no duplicates,
    and each of its entries is a code of the course-code grammar in the
    normal form under which [check_prerequisites_met] compares codes. *)
Theorem input_completed_courses_normal (inputs result : list str) :
  input_completed_courses inputs = Some result →
  NoDup result ∧ Forall (λ e, is_code e ∧ normal_form e = e) result.
Proof.
  intros H. apply (input_completed_courses_from_inv [] inputs result H).
  split; constructor.
Qed.

Lemma input_completed_courses_normal_witness :
  input_completed_courses
    [py " eel  3801c "; py "EEL4750"; py "eel 3801C"; py "12"; py "done"] =
    Some [py "EEL 3801C"; py "EEL4750"] ∧
  NoDup [py "EEL 3801C"; py "EEL4750"] ∧
  Forall (λ e, is_code e ∧ normal_form e = e) [py "EEL 3801C"; py "EEL4750"].
Proof.
  assert (input_completed_courses
            [py " eel  3801c "; py "EEL4750"; py "eel 3801C"; py "12"; py "done"] =
          Some [py "EEL 3801C"; py "EEL4750"]) as H by (by vm_compute).
  split; [exact H|]. exact (input_completed_courses_normal _ _ H).
Defined.

Lemma input_from_not_done completed raw inputs :
  is_done raw = false →
  input_completed_courses_from completed (raw :: inputs) =
    input_completed_courses_from (after_answer completed raw) inputs.
Proof.
  unfold is_done, after_answer. intros Hd. cbn [input_completed_courses_from].
  rewrite Hd. change (bool_decide (lower (strip (py "done")) = py "done")) with true.
  cbv iota. by repeat (case_bool_decide || destruct (matched _)).
Qed.

Lemma input_from_commands completed (before after : list str) (raw : str) :
  Forall (λ r, is_done r = false) before →
  input_completed_courses_from completed before = None ∧
  (is_done raw = true →
   ∃ result,
     input_completed_courses_from completed (before ++ raw :: after) = Some result ∧
     input_completed_courses_from completed (before ++ [raw]) = Some result) ∧
  (lower (strip raw) = py "clear" →
   input_completed_courses_from completed (before ++ raw :: after) =
     input_completed_courses_from [] after).
Proof.
  intros Hb. revert completed.
  induction Hb as [|r before Hr _ IH]; intros completed.
  - split_and!; [done | |].
    + unfold is_done. intros Hd. exists completed.
      cbn [app input_completed_courses_from]. by rewrite Hd.
    + intros Hc. cbn [app input_completed_courses_from]. rewrite Hc.
      by rewrite bool_decide_false, bool_decide_true.
  - cbn [app]. rewrite !input_from_not_done by done. apply IH.
Qed.

(** X9: the loop of [input_completed_courses] ends at the first answer
    [done] and reads nothing after it; without such an answer it runs out
    of input; the answer [clear] discards everything entered before it. *)
Theorem input_completed_courses_commands (before after : list str) (raw : str) :
  Forall (λ r, is_done r = false) before →
  input_completed_courses before = None ∧
  (is_done raw = true →
   ∃ result, input_completed_courses (before ++ raw :: after) = Some result ∧
             input_completed_courses (before ++ [raw]) = Some result) ∧
  (lower (strip raw) = py "clear" →
   input_completed_courses (before ++ raw :: after) = input_completed_courses after).
Proof. apply input_from_commands. Qed.

Lemma input_completed_courses_commands_witness :
  Forall (λ r, is_done r = false) [py "EEL 3801C"; py "eel 4750"] ∧
  lower (strip (py " Clear ")) = py "clear" ∧
  input_completed_courses
    ([py "EEL 3801C"; py "eel 4750"] ++ py " Clear " :: [py "EEE 3342C"; py "done"]) =
    input_completed_courses [py "EEE 3342C"; py "done"].
Proof.
  assert (Forall (λ r, is_done r = false) [py "EEL 3801C"; py "eel 4750"]) as H.
  { by repeat constructor. }
  assert (lower (strip (py " Clear ")) = py "clear") as Hc by (by vm_compute).
  split; [exact H|]. split; [exact Hc|].
  destruct (input_completed_courses_commands [py "EEL 3801C"; py "eel 4750"]
              [py "EEE 3342C"; py "done"] (py " Clear ") H) as (_ & _ & Hclear).
  exact (Hclear Hc).
Defined.

(** ** load_completed_courses *)

Lemma keep_unique_fold (seen : gset str) (acc l : list str) :
  seen = list_to_set acc → NoDup acc →
  ∃ tail,
    (foldl keep_unique (seen, acc) l).2 = acc ++ tail ∧
    NoDup (acc ++ tail) ∧ tail `sublist_of` l ∧
    ∀ x, x ∈ l → x ∈ acc ++ tail.
Proof.
  revert seen acc. induction l as [|c l IH]; intros seen acc Hseen Hnd.
  { exists []. rewrite app_nil_r. split_and!; try done.
    intros x Hx. by apply not_elem_of_nil in Hx. }
  cbn [foldl]. unfold keep_unique at 2. cbn [fst snd]. case_bool_decide as Hc.
  - destruct (IH ({[c]} ∪ seen) (acc ++ [c])) as (tail & Hr & Hnd' & Hsub & Hin).
    { subst seen. rewrite list_to_set_app_L. simpl.
      apply set_eq. intros x. rewrite !elem_of_union, elem_of_singleton.
      rewrite elem_of_empty. tauto. }
    { apply NoDup_app. split_and!; [done | | apply NoDup_singleton].
      intros x Hx ->%list_elem_of_singleton. subst seen.
      by apply Hc, (elem_of_list_to_set (C:=gset str)). }
    exists (c :: tail). rewrite Hr, <- !app_assoc. simpl in *.
    rewrite <- app_assoc in Hnd'. simpl in Hnd'.
    split_and!; [done | done | by apply sublist_skip |].
    intros x [->|Hx]%elem_of_cons.
    + apply elem_of_app. right. by left.
    + specialize (Hin x Hx). by rewrite <- app_assoc in Hin.
  - destruct (IH seen acc Hseen Hnd) as (tail & Hr & Hnd' & Hsub & Hin).
    exists tail. split_and!; [done | done | by apply sublist_cons |].
    intros x [->|Hx]%elem_of_cons; [|by apply Hin].
    apply elem_of_app. left. subst seen.
    by apply (elem_of_list_to_set (C:=gset str)) in Hc.
Qed.

Lemma load_line_entries (P : str → Prop) completed raw :
  (∀ c, truthy (upper (strip c)) = true → P (upper (strip c))) →
  Forall P completed → Forall P (load_line completed raw).
Proof.
  intros HP Hc. unfold load_line.
  destruct (negb _ || _); [done|]. destruct (contains _ _).
  - apply Forall_app. split; [done|]. apply Forall_forall.
    intros e [He (c & -> & _)%list_elem_of_fmap]%list_elem_of_filter.
    apply HP. by apply Is_true_true.
  - destruct (truthy (upper (strip raw))) eqn:E; [|done].
    apply Forall_app. split; [done|]. apply Forall_singleton.
    rewrite <- (strip_idem raw). apply HP. by rewrite strip_idem.
Qed.

Lemma load_line_comment completed raw :
  is_comment raw = true → load_line completed raw = completed.
Proof. unfold is_comment, load_line. by intros ->. Qed.

Lemma load_line_line_entries (completed : list str) (raw : str) :
  load_line completed raw = completed ++ line_entries raw.
Proof.
  unfold load_line, line_entries, is_comment.
  destruct (truthy (strip raw)) eqn:Et; cbn [negb orb]; [|by rewrite app_nil_r].
  destruct (startswith (py "#") (strip raw)); [by rewrite app_nil_r|].
  destruct (contains (py ",") (strip raw)).
  - f_equal. apply list_filter_iff. intros c. by destruct c.
  - destruct (strip raw) as [|x l]; [done|]. done.
Qed.

Lemma file_entries_lines (acc : list str) (lines : list str) :
  foldl load_line acc lines = acc ++ lines ≫= line_entries.
Proof.
  revert acc. induction lines as [|raw lines IH]; intros acc.
  { by rewrite app_nil_r. }
  cbn [foldl]. rewrite IH, load_line_line_entries, bind_cons. by rewrite <- app_assoc.
Qed.

Lemma keep_unique_first (seen : gset str) (acc l : list str) :
  seen = list_to_set acc →
  (foldl keep_unique (seen, acc) l).2 =
    acc ++ filter (λ y, y ∉ acc) (first_occurrences l).
Proof.
  revert seen acc. induction l as [|x l IH]; intros seen acc Hseen.
  { by rewrite app_nil_r. }
  cbn [foldl first_occurrences]. unfold keep_unique at 2. cbn [fst snd].
  case_bool_decide as Hx.
  - assert (x ∉ acc) as Hacc.
    { intros Hin. apply Hx. subst seen. by apply (elem_of_list_to_set (C:=gset str)). }
    rewrite (IH ({[x]} ∪ seen) (acc ++ [x])).
    2:{ subst seen. rewrite list_to_set_app_L. simpl.
        apply set_eq. intros y. rewrite !elem_of_union, elem_of_singleton.
        rewrite elem_of_empty. tauto. }
    rewrite filter_cons_True by done. rewrite <- app_assoc. cbn [app]. do 2 f_equal.
    rewrite list_filter_filter. apply list_filter_iff. intros y.
    rewrite elem_of_app, list_elem_of_singleton. tauto.
  - assert (x ∈ acc) as Hacc.
    { subst seen. by apply (elem_of_list_to_set (C:=gset str)) in Hx. }
    rewrite (IH seen acc Hseen). rewrite filter_cons_False by tauto. f_equal.
    rewrite list_filter_filter. apply list_filter_iff. intros y. split; [|tauto].
    intros Hy. split; [done|]. by intros ->.
Qed.

(** X10: the list that [load_completed_courses] returns is the list of the
    entries of the file without its repetitions, each entry kept where it
    occurs first.  The entries of the file are those of its lines, in order:
    an empty line or a comment holds none, a line with a comma holds the
    pieces between the commas, trimmed and uppercased, the empty ones left
    out, and any other line holds the trimmed line, uppercased.  So the list
    has no duplicates; its entries are non-empty, uppercased and without
    whitespace at their ends; and a file of empty lines and comments gives
    the empty list.  The sample file, which names [EEL 3801C] on its second
    line and again on its last, gives that code first. *)
Theorem load_completed_courses_unique (content : str) :
  load_completed_courses content =
    first_occurrences
      (split (py (String "010" EmptyString)) (strip content) ≫= line_entries) ∧
  file_entries content =
    split (py (String "010" EmptyString)) (strip content) ≫= line_entries ∧
  NoDup (load_completed_courses content) ∧
  Forall (λ e, e ≠ [] ∧ upper e = e ∧ strip e = e) (load_completed_courses content) ∧
  load_completed_courses content `sublist_of` file_entries content ∧
  (∀ e, e ∈ file_entries content → e ∈ load_completed_courses content) ∧
  (Forall (λ raw, is_comment raw = true)
     (split (py (String "010" EmptyString)) (strip content)) →
   load_completed_courses content = []) ∧
  file_entries completed_file =
    [py "EEL 3801C"; py "EEE 3342C"; py "EEL 4750"; py "EEL 3801C"] ∧
  load_completed_courses completed_file =
    [py "EEL 3801C"; py "EEE 3342C"; py "EEL 4750"].
Proof.
  assert (file_entries content =
          split (py (String "010" EmptyString)) (strip content) ≫= line_entries) as Hfile.
  { unfold file_entries. by rewrite file_entries_lines. }
  split.
  { rewrite <- Hfile. unfold load_completed_courses. fold (file_entries content).
    rewrite (keep_unique_first ∅ [] (file_entries content)) by done. cbn [app].
    apply filter_all. intros y. apply not_elem_of_nil. }
  split; [done|].
  split_and!; [..|by vm_compute|by vm_compute].
  all: unfold load_completed_courses; fold (file_entries content).
  all: destruct (keep_unique_fold ∅ [] (file_entries content))
      as (tail & Hr & Hnd & Hsub & Hin); [done | constructor |].
  all: rewrite Hr; cbn [app] in *.
  - done.
  - apply Forall_forall. intros e He.
    assert (Forall (λ e, e ≠ [] ∧ upper e = e ∧ strip e = e) (file_entries content))
      as Hall.
    { unfold file_entries.
      generalize (split (py (String "010" EmptyString)) (strip content)). intros lines.
      assert (Forall (λ e : str, e ≠ [] ∧ upper e = e ∧ strip e = e) []) as H0
        by constructor.
      revert H0. generalize (@nil str).
      induction lines as [|raw lines IH]; intros acc Hacc; [done|].
      cbn [foldl]. apply IH, load_line_entries; [|done].
      intros c Hc. split_and!.
      - intros Hnil. by rewrite Hnil in Hc.
      - apply upper_idem.
      - by rewrite upper_strip, strip_idem. }
    rewrite Forall_forall in Hall. apply Hall. by apply (elem_of_sublist _ _ _ He).
  - done.
  - done.
  - intros Hcomments.
    assert (file_entries content = []) as Hnil.
    { unfold file_entries. revert Hcomments.
      generalize (split (py (String "010" EmptyString)) (strip content)).
      intros ls. induction ls as [|raw ls' IH]; [done|].
      intros [Hraw Hrest]%Forall_cons. cbn [foldl].
      rewrite load_line_comment by done. by apply IH. }
    rewrite Hnil in Hsub. by apply sublist_nil_r.
Qed.

(** ** More on the graph builders *)

Lemma bind_sublist_of {A B} (f : A → list B) (l1 l2 : list A) :
  l1 `sublist_of` l2 → l1 ≫= f `sublist_of` l2 ≫= f.
Proof.
  induction 1 as [|x l1 l2 _ IH|x l1 l2 _ IH]; [done|..]; rewrite ?bind_cons.
  - by apply sublist_app.
  - by apply sublist_inserts_l.
Qed.

Lemma course_node_id (cs : list course) : node_id <$> (course_node <$> cs) = course_code <$> cs.
Proof. by rewrite <- list_fmap_compose. Qed.

Lemma course_edges_ends (codes : gset str) (c : course) (e : edge) :
  e ∈ course_edges codes c →
  edge_from e ∈ codes ∧ edge_from e ∈ parse_prerequisites (full_description c) ∧
  edge_to e = course_code c.
Proof.
  unfold course_edges. intros (p & -> & Hp)%list_elem_of_fmap.
  by apply list_elem_of_filter in Hp as [Hp Hin].
Qed.

(** X11: both graphs are closed: the two ends of every edge are ids of
    nodes of the graph. *)
Theorem graph_edges_closed (cs : list course) (major : str) :
  (∀ e, e ∈ edges (create_course_graph cs) →
        edge_from e ∈ node_id <$> nodes (create_course_graph cs) ∧
        edge_to e ∈ node_id <$> nodes (create_course_graph cs)) ∧
  (∀ e, e ∈ edges (get_course_graph_by_major cs major) →
        edge_from e ∈ node_id <$> nodes (get_course_graph_by_major cs major) ∧
        edge_to e ∈ node_id <$> nodes (get_course_graph_by_major cs major)).
Proof.
  split.
  - unfold create_course_graph. cbn [nodes edges]. rewrite course_node_id.
    intros e (c & He & Hc)%list_elem_of_bind.
    apply course_edges_ends in He as (Hfrom & _ & ->).
    split; [by apply elem_of_codes_of | by apply list_elem_of_fmap_2].
  - destruct (graph_by_major_spec cs major)
      as (Hedges & st & Hnodes & extra & Hn & _ & _ & _ & Hvis).
    rewrite Hedges, Hnodes, Hn, fmap_app, course_node_id.
    intros e (c & He & Hc)%list_elem_of_bind.
    apply course_edges_ends in He as (Hfrom & Hpre & ->). split.
    + apply elem_of_app.
      destruct (decide (edge_from e ∈ codes_of (search_courses_by_major cs major)))
        as [Hin|Hout].
      * left. by apply elem_of_codes_of.
      * right. apply Hvis; [|done..]. unfold visited_prereqs.
        apply list_elem_of_bind. eauto.
    + apply elem_of_app. left. by apply list_elem_of_fmap_2.
Qed.

(** X12: the graph of a major lies within the graph of the catalog: its
    edges are edges of the whole graph, in the same order; its nodes begin
    with the nodes that the whole graph has for the courses of the major,
    and every id of a node is the id of a node of the whole graph. *)
Theorem major_graph_within (cs : list course) (major : str) :
  edges (get_course_graph_by_major cs major) `sublist_of` edges (create_course_graph cs) ∧
  (∃ extra,
     nodes (get_course_graph_by_major cs major) =
       (course_node <$> search_courses_by_major cs major) ++ extra ∧
     Forall (λ n, node_group n = py "prerequisite") extra) ∧
  course_node <$> search_courses_by_major cs major
    `sublist_of` nodes (create_course_graph cs) ∧
  (∀ n, n ∈ nodes (get_course_graph_by_major cs major) →
        node_id n ∈ node_id <$> nodes (create_course_graph cs)).
Proof.
  destruct (graph_by_major_spec cs major)
    as (Hedges & st & Hnodes & extra & Hn & _ & _ & Hex & _).
  pose proof (search_by_major_sublist cs major) as Hsub.
  unfold create_course_graph. cbn [nodes edges]. rewrite Hedges, Hnodes, Hn.
  split_and!.
  - by apply bind_sublist_of.
  - exists extra. split; [done|]. apply Forall_forall. intros n Hin. by apply Hex.
  - by apply fmap_sublist.
  - rewrite course_node_id. intros n [Hin|Hin]%elem_of_app.
    + apply list_elem_of_fmap in Hin as (c & -> & Hc). simpl.
      apply list_elem_of_fmap_2. by apply (elem_of_sublist _ _ _ Hc).
    + apply elem_of_codes_of. by apply Hex.
Qed.

(** ** Majors and keyword search *)

Lemma accepts_majors_re (c : ascii) : accepts majors_re c = true → marker_char c = true.
Proof.
  destruct c as [[] [] [] [] [] [] [] []]; vm_compute; congruence.
Qed.

Lemma majors_re_alphabet (s : str) :
  matched (re_match majors_re s) = true → Forall (λ c, marker_char c = true) s.
Proof.
  unfold matched, re_match, majors_re.
  destruct (exec _ s None _) as [m|] eqn:H; [intros _ | done].
  rewrite exec_cat in H.
  apply exec_consumes in H as (m1 & s1 & g1 & -> & H1 & H).
  rewrite exec_cat in H.
  apply exec_consumes in H as (m2 & s2 & g2 & -> & H2 & H).
  rewrite exec_cat in H.
  apply exec_consumes in H as (m3 & s3 & g3 & -> & H3 & H).
  rewrite !Forall_app. split_and!.
  - eapply Forall_impl; [exact H1|]. intros c Hc. apply accepts_majors_re.
    unfold majors_re. cbn [accepts]. by rewrite Hc.
  - eapply Forall_impl; [exact H2|]. intros c Hc. apply accepts_majors_re.
    unfold majors_re. cbn [accepts]. cbn [accepts] in Hc. rewrite Hc.
    by rewrite orb_true_r.
  - eapply Forall_impl; [exact H3|]. intros c Hc. apply accepts_majors_re.
    unfold majors_re. cbn [accepts]. cbn [accepts] in Hc. rewrite Hc.
    by rewrite !orb_true_r.
  - destruct s3 as [|c [|]]; [done | | done]. simpl in H.
    destruct (Ascii.eqb_spec c "010") as [->|]; [|done]. by repeat constructor.
Qed.

Lemma parse_courses_valid_majors (text : str) :
  Forall (λ c, valid_majors (majors c)) (parse_courses text).
Proof.
  unfold parse_courses, parse_lines.
  apply (commit_valid (run (Parser [] None []) _)), run_inv.
  split; simpl; [constructor | by left].
Qed.

Lemma search_outside_alphabet (text major : str) (x : ascii) :
  x ∈ major → marker_char x = false →
  search_courses_by_major (parse_courses text) major = [].
Proof.
  intros Hx Hm. unfold search_courses_by_major. apply filter_none.
  intros c Hc Hin. apply Is_true_true, contains_spec in Hin as (pre & post & Hin).
  pose proof (parse_courses_valid_majors text) as Hv. rewrite Forall_forall in Hv.
  destruct (Hv c Hc) as [_ Hre]. apply majors_re_alphabet in Hre.
  rewrite Forall_forall in Hre. rewrite (Hre x) in Hm; [done|].
  rewrite Hin. apply elem_of_app. right. apply elem_of_app. by left.
Qed.

(** X13: a major with a character that no marker line has (anything but
    whitespace and the characters of [ECp123,]) selects no course of a
    parsed catalog.  So of the majors that [validate_major] accepts, those
    that are not one of the five tags of the marker grammar, [CS] and [IT],
    select nothing, whatever the text. *)
Theorem unsupported_major_empty (text major : str) :
  (∃ x, x ∈ major ∧ marker_char x = false) ∨
  (validate_major major = true ∧ major ∉ major_tags) →
  search_courses_by_major (parse_courses text) major = [].
Proof.
  intros [(x & Hx & Hm) | [Hv Hn]]; [by apply (search_outside_alphabet _ _ x)|].
  unfold validate_major in Hv. apply bool_decide_eq_true in Hv.
  unfold major_tags in Hn. rewrite !elem_of_cons in Hv. rewrite !elem_of_cons in Hn.
  destruct Hv as [Hv|[Hv|[Hv|[Hv|[Hv|[Hv|[Hv|Hv]]]]]]]; [..|by apply elem_of_nil in Hv];
    subst major; try (exfalso; apply Hn; tauto).
  - apply (search_outside_alphabet _ _ "S"); [|done]. right. left.
  - apply (search_outside_alphabet _ _ "I"); [|done]. left.
Qed.

Lemma unsupported_major_empty_witness :
  search_courses_by_major (parse_courses catalog_sample) (py "CS") = [].
Proof.
  apply unsupported_major_empty. right. split; [done|].
  apply (bool_decide_unpack _). by vm_compute.
Defined.

Lemma tolower_toupper (c : ascii) : tolower (toupper c) = tolower c.
Proof. by destruct c as [[] [] [] [] [] [] [] []]. Qed.

Lemma lower_upper (s : str) : lower (upper s) = lower s.
Proof.
  unfold lower, upper. rewrite <- list_fmap_compose. apply list_fmap_ext.
  intros _ c _. apply tolower_toupper.
Qed.

Lemma tolower_idem (c : ascii) : tolower (tolower c) = tolower c.
Proof. by destruct c as [[] [] [] [] [] [] [] []]. Qed.

Lemma lower_idem (s : str) : lower (lower s) = lower s.
Proof.
  unfold lower. rewrite <- list_fmap_compose. apply list_fmap_ext.
  intros _ c _. apply tolower_idem.
Qed.

Lemma contains_nil (s : str) : contains [] s = true.
Proof. by destruct s. Qed.

Lemma contains_app_l (sub a b : str) : contains sub a = true → contains sub (a ++ b) = true.
Proof.
  rewrite !contains_spec. intros (pre & post & ->). exists pre, (post ++ b).
  by rewrite <- !app_assoc.
Qed.

Lemma filter_ext_in {A} (P Q : A → Prop)
    `{∀ x, Decision (P x)} `{∀ x, Decision (Q x)} (l : list A) :
  (∀ x, x ∈ l → P x ↔ Q x) → filter P l = filter Q l.
Proof.
  induction l as [|a l IH]; intros Hl; [done|].
  rewrite !filter_cons. rewrite IH by (intros x Hx; apply Hl; by right).
  assert (P a ↔ Q a) as Ha by (apply Hl; by left).
  destruct (decide (P a)), (decide (Q a)); tauto.
Qed.

Lemma parsed_description_code (text : str) (c : course) :
  c ∈ parse_courses text → ∃ rest, full_description c = course_code c ++ rest.
Proof.
  intros Hc. pose proof (parsed_record_shape (split (py (String "010" EmptyString)) text)) as H.
  rewrite Forall_forall in H. by destruct (H c Hc) as (_ & _ & Hd).
Qed.

(** X14: the keyword search of the command line keeps the courses in the
    order of the catalog and returns every course for the empty query; for
    a query of the code points 0..127 it does not see the case of the
    query; on a parsed catalog the test of the description decides alone,
    since a description begins with the code. *)
Theorem search_courses_query (cs : list course) (query text : str) :
  search_courses cs query `sublist_of` cs ∧
  (is_ascii query →
   search_courses cs (upper query) = search_courses cs query ∧
   search_courses cs (lower query) = search_courses cs query) ∧
  search_courses cs [] = cs ∧
  search_courses (parse_courses text) query =
    filter (λ c, contains (lower query) (lower (full_description c)) = true)
      (parse_courses text).
Proof.
  unfold search_courses. split_and!.
  - apply sublist_filter.
  - intros _. by rewrite lower_upper, lower_idem.
  - apply filter_all. intros c. left. apply contains_nil.
  - apply filter_ext_in. intros c Hc. split; [|by right].
    intros [H|H]; [|done].
    destruct (parsed_description_code text c Hc) as [rest ->].
    unfold lower. rewrite fmap_app. by apply contains_app_l.
Qed.

Lemma search_courses_query_witness :
  is_ascii (py "Dsp") ∧
  search_courses (parse_courses catalog_sample) (py "Dsp") ≠ [] ∧
  search_courses (parse_courses catalog_sample) (upper (py "Dsp")) =
    search_courses (parse_courses catalog_sample) (py "Dsp") ∧
  search_courses (parse_courses catalog_sample) (lower (py "Dsp")) =
    search_courses (parse_courses catalog_sample) (py "Dsp").
Proof.
  assert (is_ascii (py "Dsp")) as H.
  { unfold is_ascii. repeat constructor. }
  split; [exact H|]. split; [by vm_compute|].
  exact (proj1 (proj2 (search_courses_query (parse_courses catalog_sample) (py "Dsp") []))
           H).
Defined.

(** ** Statistics *)

Lemma count_major_fold (tags : list str) (mc : gmap str nat) (m : str) :
  default 0 (foldl count_major mc tags !! m) =
    default 0 (mc !! m) + length (filter (λ t, strip t = m) tags) ∧
  (is_Some (foldl count_major mc tags !! m) ↔
   is_Some (mc !! m) ∨ ∃ t, t ∈ tags ∧ strip t = m).
Proof.
  revert mc. induction tags as [|t tags IH]; intros mc.
  { simpl. split; [lia|]. split; [auto|]. intros [H|(t & Ht & _)]; [done|].
    by apply elem_of_nil in Ht. }
  cbn [foldl]. destruct (IH (count_major mc t)) as [IH1 IH2]. rewrite IH1, IH2.
  unfold count_major. destruct (decide (strip t = m)) as [<-|Hne].
  - rewrite lookup_insert_eq, filter_cons_True by done. simpl. split; [lia|].
    split; [|by left]. intros _. right. exists t. split; [left|done].
  - rewrite lookup_insert_ne, filter_cons_False by done. split; [done|].
    split.
    + intros [H|(t' & Ht' & E)]; [by left|]. right. exists t'. split; [by right|done].
    + intros [H|(t' & Ht' & E)]; [by left|]. right. exists t'. split; [|done].
      apply elem_of_cons in Ht' as [->|Ht']; [done|done].
Qed.

Lemma count_course_fold (cs : list course) (mc : gmap str nat) (g u : nat) :
  ∃ mc' g' u',
    foldl count_course (mc, g, u) cs = (mc', g', u') ∧
    g' = g + length (filter (λ c, is_graduate_course c = true) cs) ∧
    u' = u + length (filter (λ c, is_graduate_course c = false) cs) ∧
    (∀ m, default 0 (mc' !! m) =
            default 0 (mc !! m) + length (filter (λ t, t = m) (major_entries cs))) ∧
    (∀ m, is_Some (mc' !! m) ↔ is_Some (mc !! m) ∨ m ∈ major_entries cs).
Proof.
  revert mc g u. induction cs as [|c cs IH]; intros mc g u.
  { exists mc, g, u. simpl. split_and!; [done|lia|lia|intros; lia|].
    intros m. split; [auto|]. intros [H|H]; [done|]. by apply elem_of_nil in H. }
  cbn [foldl]. unfold count_course at 2.
  assert (∀ m, length (filter (λ t, t = m) (major_entries (c :: cs))) =
               length (filter (λ t, strip t = m) (majors_list c)) +
               length (filter (λ t, t = m) (major_entries cs))) as Hlen.
  { intros m. unfold major_entries. rewrite bind_cons, filter_app, length_app.
    f_equal. induction (majors_list c) as [|t l IHl]; [done|].
    rewrite fmap_cons, !filter_cons. destruct (decide (strip t = m)); simpl; by rewrite IHl. }
  assert (∀ m, m ∈ major_entries (c :: cs) ↔
               (∃ t, t ∈ majors_list c ∧ strip t = m) ∨ m ∈ major_entries cs) as Hin.
  { intros m. unfold major_entries. rewrite bind_cons, elem_of_app, list_elem_of_fmap.
    split; (intros [(t & H1 & H2)|H]; [left; exists t|by right]); by split. }
  destruct (is_graduate_course c) eqn:Eg.
  - destruct (IH (foldl count_major mc (majors_list c)) (g + 1) u)
      as (mc' & g' & u' & -> & -> & -> & Hc & Hs).
    exists mc', (g + 1 + length (filter (λ c, is_graduate_course c = true) cs)),
      (u + length (filter (λ c, is_graduate_course c = false) cs)).
    rewrite filter_cons_True, filter_cons_False by (by rewrite Eg).
    split_and!; [done|simpl; lia|done|..].
    + intros m. rewrite Hc, Hlen. destruct (count_major_fold (majors_list c) mc m) as [-> _]. lia.
    + intros m. rewrite Hs, Hin. destruct (count_major_fold (majors_list c) mc m) as [_ ->].
      tauto.
  - destruct (IH (foldl count_major mc (majors_list c)) g (u + 1))
      as (mc' & g' & u' & -> & -> & -> & Hc & Hs).
    exists mc', (g + length (filter (λ c, is_graduate_course c = true) cs)),
      (u + 1 + length (filter (λ c, is_graduate_course c = false) cs)).
    rewrite filter_cons_False, filter_cons_True by (by rewrite Eg).
    split_and!; [done|done|simpl; lia|..].
    + intros m. rewrite Hc, Hlen. destruct (count_major_fold (majors_list c) mc m) as [-> _]. lia.
    + intros m. rewrite Hs, Hin. destruct (count_major_fold (majors_list c) mc m) as [_ ->].
      tauto.
Qed.

Lemma filter_complement_length {A} (f : A → bool) (l : list A) :
  length (filter (λ x, f x = false) l) + length (filter (λ x, f x = true) l) = length l.
Proof.
  induction l as [|a l IH]; [done|]. rewrite !filter_cons.
  destruct (f a); simpl; lia.
Qed.

(** X15: the statistics add up: the two level counts are the numbers of
    courses the classifier calls undergraduate and graduate, and their sum
    is the total; the count of a major is the number of times a course
    names it, after stripping, in its majors split at comma-space; a major
    has a count exactly when some course names it, and then the count is
    positive. *)
Theorem get_statistics_counts (cs : list course) :
  let stats := get_statistics cs in
  total_courses stats = length cs ∧
  graduate_courses stats = length (filter (λ c, is_graduate_course c = true) cs) ∧
  undergraduate_courses stats = length (filter_by_academic_level cs (py "undergraduate")) ∧
  undergraduate_courses stats + graduate_courses stats = total_courses stats ∧
  (∀ m, default 0 (major_counts stats !! m) =
          length (filter (λ t, t = m) (major_entries cs))) ∧
  (∀ m, is_Some (major_counts stats !! m) ↔ m ∈ major_entries cs) ∧
  (∀ m n, major_counts stats !! m = Some n → 0 < n).
Proof.
  unfold get_statistics.
  destruct (count_course_fold cs ∅ 0 0) as (mc & g & u & -> & -> & -> & Hc & Hs).
  cbn zeta. cbn [total_courses graduate_courses undergraduate_courses major_counts].
  assert (filter_by_academic_level cs (py "undergraduate") =
          filter (λ c, is_graduate_course c = false) cs) as ->.
  { unfold filter_by_academic_level. rewrite bool_decide_false by done.
    rewrite bool_decide_true by done. apply list_filter_iff.
    intros c. by destruct (is_graduate_course c). }
  assert (∀ m, is_Some (mc !! m) ↔ m ∈ major_entries cs) as Hs'.
  { intros m. rewrite Hs, lookup_empty. split; [|by right].
    intros [H|H]; [|done]. by destruct H. }
  split_and!; [done|done|done|..|done|].
  - pose proof (filter_complement_length is_graduate_course cs). lia.
  - intros m. by rewrite Hc, lookup_empty.
  - intros m n Hn. pose proof (Hc m) as Hm. rewrite Hn, lookup_empty in Hm. simpl in Hm.
    assert (m ∈ major_entries cs) as Hin by (apply Hs'; by rewrite Hn).
    assert (m ∈ filter (λ t, t = m) (major_entries cs)) as Hf.
    { by apply list_elem_of_filter. }
    destruct (filter (λ t, t = m) (major_entries cs)); [by apply elem_of_nil in Hf|].
    simpl in Hm. lia.
Qed.

(** ** The status column of the export *)

Lemma status_fold {A} (key : A → str) (val : A → str) (l : list A)
    (info : gmap str str) (k : str) :
  (foldl (λ info e, <[key e := val e]> info) info l !! k = None ↔
   info !! k = None ∧ ∀ e, e ∈ l → key e ≠ k) ∧
  (∀ v, foldl (λ info e, <[key e := val e]> info) info l !! k = Some v →
        info !! k = Some v ∨ ∃ e, e ∈ l ∧ key e = k ∧ val e = v).
Proof.
  revert info. induction l as [|a l IH]; intros info; cbn [foldl].
  { split; [|by left]. split; [|by intros [H _]]. intros H. split; [done|].
    intros e He. by apply elem_of_nil in He. }
  destruct (IH (<[key a := val a]> info)) as [IH1 IH2]. split.
  - rewrite IH1. destruct (decide (key a = k)) as [<-|Hne].
    + rewrite lookup_insert_eq. split; [by intros [H _]|].
      intros [_ H]. exfalso. apply (H a); [left|done].
    + rewrite lookup_insert_ne by done. split.
      * intros [H1 H2]. split; [done|]. intros e [->|He]%elem_of_cons; auto.
      * intros [H1 H2]. split; [done|]. intros e He. apply H2. by right.
  - intros v Hv. destruct (IH2 v Hv) as [H|(e & He & Hk & Hval)].
    + destruct (decide (key a = k)) as [<-|Hne].
      * rewrite lookup_insert_eq in H. injection H as <-. right. exists a.
        split; [left|done].
      * rewrite lookup_insert_ne in H by done. by left.
    + right. exists e. split; [by right|done].
Qed.

Lemma undergraduate_report (cs : list course) (completed_courses : list str) :
  get_eligible_courses cs completed_courses None (py "undergraduate") =
    eligibility_entry completed_courses <$> filter (λ c, is_graduate_course c = false) cs.
Proof.
  unfold get_eligible_courses. rewrite (filter_all (λ c, major_passes None c)) by done.
  f_equal. unfold filter_by_academic_level. rewrite bool_decide_false by done.
  rewrite bool_decide_true by done. apply list_filter_iff.
  intros c. by destruct (is_graduate_course c).
Qed.

Lemma eligibility_info_lookup (cs : list course) (completed_courses : list str) (k : str) :
  completed_courses ≠ [] →
  (eligibility_info cs completed_courses !! k = None ↔
   ∀ c, c ∈ cs → course_code c = k → is_graduate_course c = true) ∧
  (∀ v, eligibility_info cs completed_courses !! k = Some v →
        ∃ c, c ∈ cs ∧ course_code c = k ∧ is_graduate_course c = false ∧
             v = status_of completed_courses (eligibility_entry completed_courses c)).
Proof.
  intros Hne. unfold eligibility_info.
  destruct completed_courses as [|x xs] eqn:E; [done|]. rewrite <- E in *. clear E Hne.
  rewrite undergraduate_report.
  destruct (status_fold (λ e, course_code (info_course e)) (status_of completed_courses)
              (eligibility_entry completed_courses <$>
                 filter (λ c, is_graduate_course c = false) cs) ∅ k) as [H1 H2].
  split.
  - rewrite H1, lookup_empty. split.
    + intros [_ H] c Hc Hk. destruct (is_graduate_course c) eqn:Eg; [done|]. exfalso.
      apply (H (eligibility_entry completed_courses c)).
      * apply list_elem_of_fmap_2. by apply list_elem_of_filter.
      * by rewrite eligibility_entry_spec.
    + intros H. split; [done|]. intros e (c & -> & Hc)%list_elem_of_fmap Hk.
      apply list_elem_of_filter in Hc as [Hg Hc]. rewrite eligibility_entry_spec in Hk.
      simpl in Hk. rewrite (H c Hc Hk) in Hg. discriminate.
  - intros v Hv. destruct (H2 v Hv) as [H|(e & He & Hk & Hval)].
    { by rewrite lookup_empty in H. }
    apply list_elem_of_fmap in He as (c & -> & Hc).
    apply list_elem_of_filter in Hc as [Hg Hc]. rewrite eligibility_entry_spec in Hk.
    exists c. by split_and!.
Qed.

(** X16: the [Status] of an exported row, when completed courses are given.
    It is [Unknown] exactly when every course of the export with the row's
    code is a graduate course, whether completed or not, since the
    eligibility report is taken at its default level; it is [Completed]
    exactly when the code is one of the completed strings, as written, and
    some course with the code is undergraduate; and for an undergraduate
    course whose code no other course of the export has, it is otherwise
    [Eligible] or [Need Prerequisites] by the verdict of
    [check_prerequisites_met]. *)
Theorem export_status (cs : list course) (completed_courses : list str) (c : course) :
  completed_courses ≠ [] → c ∈ cs →
  let status := row_status (export_row (eligibility_info cs completed_courses)
                              completed_courses c) in
  (status = Some (py "Unknown") ↔
   ∀ c', c' ∈ cs → course_code c' = course_code c → is_graduate_course c' = true) ∧
  (status = Some (py "Completed") ↔
   course_code c ∈ completed_courses ∧
   ∃ c', c' ∈ cs ∧ course_code c' = course_code c ∧ is_graduate_course c' = false) ∧
  (is_graduate_course c = false → course_code c ∉ completed_courses →
   (∀ c', c' ∈ cs → course_code c' = course_code c → c' = c) →
   status = Some (if (check_prerequisites_met (parse_prerequisites (full_description c))
                        completed_courses).1
                  then py "Eligible" else py "Need Prerequisites")).
Proof.
  intros Hne Hc. cbn zeta. unfold export_row. cbn [row_status].
  destruct (eligibility_info_lookup cs completed_courses (course_code c) Hne) as [Hnone Hsome].
  assert (∀ c', status_of completed_courses (eligibility_entry completed_courses c') ≠
                py "Unknown") as Hunk.
  { intros c'. rewrite eligibility_entry_spec. unfold status_of. cbn [info_course prereqs_met].
    case_bool_decide; [done|]. by case_bool_decide. }
  assert (∀ c', course_code c' = course_code c →
            (status_of completed_courses (eligibility_entry completed_courses c') =
               py "Completed" ↔ course_code c ∈ completed_courses)) as Hcomp.
  { intros c' Hk. rewrite eligibility_entry_spec. unfold status_of.
    cbn [info_course prereqs_met]. rewrite Hk.
    case_bool_decide; [done|]. by case_bool_decide. }
  destruct completed_courses as [|x xs] eqn:E; [done|]. rewrite <- E in *. clear E.
  destruct (eligibility_info cs completed_courses !! course_code c) as [v|] eqn:Ev;
    cbn [default].
  - destruct (Hsome v eq_refl) as (c' & Hc' & Hk & Hg & Hv).
    assert (¬ ∀ c', c' ∈ cs → course_code c' = course_code c → is_graduate_course c' = true)
      as Hnot.
    { intros H. rewrite (H c' Hc' Hk) in Hg. discriminate. }
    split_and!.
    + split; [|done]. intros [= ->]. by destruct (Hunk c').
    + split.
      * intros [= ->]. split; [by apply (Hcomp c')|]. by exists c'.
      * intros [Hin _]. f_equal. rewrite Hv. by apply (Hcomp c').
    + intros Hgc Hout Huniq. f_equal. rewrite Hv, (Huniq c' Hc' Hk).
      rewrite eligibility_entry_spec, check_prerequisites_met_spec. unfold status_of.
      cbn [info_course prereqs_met fst]. by rewrite bool_decide_false.
  - assert (∀ c', c' ∈ cs → course_code c' = course_code c → is_graduate_course c' = true)
      as Hall by (by apply Hnone).
    split_and!.
    + done.
    + split; [done|]. intros [_ (c' & Hc' & Hk & Hg)]. rewrite (Hall c' Hc' Hk) in Hg.
      discriminate.
    + intros Hgc. rewrite (Hall c Hc eq_refl) in Hgc. discriminate.
Qed.

Lemma export_status_witness :
  row_status <$> export_to_csv (parse_courses graduate_catalog_text) [py "EEL 5513"] =
    [Some (py "Need Prerequisites"); Some (py "Unknown")] ∧
  (row_status (export_row (eligibility_info (parse_courses graduate_catalog_text)
                             [py "EEL 5513"]) [py "EEL 5513"]
                 (Course (py "EEL 5513") (py "EEL 5513 DSP Applications. PR: EEL 4750.")
                    (py "EE"))) = Some (py "Unknown") ↔
   ∀ c', c' ∈ parse_courses graduate_catalog_text → course_code c' = py "EEL 5513" →
         is_graduate_course c' = true).
Proof.
  split; [by vm_compute|].
  assert ([py "EEL 5513"] ≠ []) as H1 by done.
  assert (Course (py "EEL 5513") (py "EEL 5513 DSP Applications. PR: EEL 4750.") (py "EE")
            ∈ parse_courses graduate_catalog_text) as H2.
  { vm_compute. right. left. }
  exact (proj1 (export_status (parse_courses graduate_catalog_text) [py "EEL 5513"] _ H1 H2)).
Defined.

(** ** The loaders and the verdict *)

Lemma check_same_met (prereqs l l' : list str) :
  (∀ p, met_by l p ↔ met_by l' p) →
  check_prerequisites_met prereqs l = check_prerequisites_met prereqs l'.
Proof.
  intros H. rewrite !check_prerequisites_met_spec, !missing_prereqs_of_filter.
  assert (filter (λ p, ¬ met_by l p) prereqs = filter (λ p, ¬ met_by l' p) prereqs) as ->;
    [|done].
  apply list_filter_iff. intros p. by rewrite H.
Qed.

Lemma met_by_fmap (f : str → str) (l : list str) (p : str) :
  (∀ s, normal_form (f s) = normal_form s) → met_by (f <$> l) p ↔ met_by l p.
Proof.
  intros Hf. unfold met_by. rewrite !Exists_exists. split.
  - intros (e & (s & -> & Hs)%list_elem_of_fmap & Heq). exists s.
    split; [done|]. by rewrite <- Hf.
  - intros (e & He & Heq). exists (f e). split; [by apply list_elem_of_fmap_2|].
    by rewrite Hf.
Qed.

Lemma met_by_elements (l l' : list str) (p : str) :
  (∀ x, x ∈ l ↔ x ∈ l') → met_by l p ↔ met_by l' p.
Proof.
  intros H. unfold met_by. rewrite !Exists_exists.
  split; intros (e & He & Heq); exists e; (split; [by apply H|done]).
Qed.

Lemma normal_form_upper_strip (s : str) : normal_form (upper (strip s)) = normal_form s.
Proof.
  unfold normal_form. rewrite !normalized_collapse. unfold collapse_whitespace.
  by rewrite upper_strip, strip_idem, upper_collapse, upper_idem.
Qed.

(** X17: what the two loaders of completed courses do to an entry does not
    change the verdict of [check_prerequisites_met]: uppercasing and
    trimming the entries as the file loader does, bringing them to the normal
    form as the prompt does, and removing duplicates all give the same
    result and the same missing prerequisites; and a list the prompt
    returned meets a prerequisite exactly when it holds the normal form of
    the prerequisite. *)
Theorem completed_courses_verdict (prereqs completed : list str) (content : str) :
  check_prerequisites_met prereqs ((λ c, upper (strip c)) <$> completed) =
    check_prerequisites_met prereqs completed ∧
  check_prerequisites_met prereqs (normal_form <$> completed) =
    check_prerequisites_met prereqs completed ∧
  check_prerequisites_met prereqs (load_completed_courses content) =
    check_prerequisites_met prereqs (file_entries content) ∧
  (∀ inputs result p,
     input_completed_courses inputs = Some result →
     (met_by result p ↔ normal_form p ∈ result)).
Proof.
  split_and!.
  - apply check_same_met. intros p. apply met_by_fmap, normal_form_upper_strip.
  - apply check_same_met. intros p. apply met_by_fmap, normal_form_idem.
  - apply check_same_met. intros p. apply met_by_elements. intros x.
    unfold load_completed_courses. fold (file_entries content).
    destruct (keep_unique_fold ∅ [] (file_entries content)) as (tail & -> & _ & Hsub & Hin);
      [done | constructor |].
    split; [|apply Hin]. intros Hx. by apply (elem_of_sublist _ _ _ Hx).
  - intros inputs result p Hr.
    destruct (input_completed_courses_from_inv [] inputs result Hr) as [_ Hall].
    { split; constructor. }
    rewrite Forall_forall in Hall. unfold met_by. rewrite Exists_exists. split.
    + intros (e & He & Heq). destruct (Hall e He) as [_ Hn]. by rewrite <- Heq, Hn.
    + intros Hin. exists (normal_form p). split; [done|]. by apply Hall.
Qed.
